(** * The order-preserving retry scheduler [OrderedQueueWithRetry]

    A shallow embedding of [src/queues/ordered-queue-with-retry.js].

    - JavaScript numbers are integers ([Z]); a property that may be
      [undefined] is an [option].
    - The class instance ([this]), the durable backend, the wall clock and
      the console form one [World]; every method is a computation in the
      state-and-exception monad [M] over it.  A [throw] keeps the writes
      made before it, as in JavaScript.
    - Every [async] method runs to completion as one step: the embedding
      has no interleaving at [await].
    - The backend (the [bullmq] [Queue] and [Worker] over Redis) is a
      dependency of the repository; it is modelled in [Module Bull]. *)

From Stdlib Require Import ZArith List Lia.
From Stdlib Require Import Sorting.Sorted Sorting.Permutation.
From stdpp Require Import gmap strings list fin_maps pretty sorting.

Local Open Scope Z_scope.

(** ** JavaScript data *)

Inductive value :=
  | VUndefined
  | VBool (b : bool)
  | VNum (n : Z)
  | VStr (s : string).

(** A plain user object: the [data] handed to [addJob]. *)
Abbreviation Payload := (gmap string value).

(** Thrown values. *)
Inductive exn :=
  | Error (message : string)
  | TypeError (message : string).

Inductive outcome (A : Type) :=
  | Return (a : A)
  | Throw (e : exn).
Arguments Return {A} a.
Arguments Throw {A} e.

(** [x || d] on a possibly-undefined number: [undefined] and [0] are falsy. *)
Definition or_default (x : option Z) (d : Z) : Z :=
  match x with
  | Some v => if v =? 0 then d else v
  | None => d
  end.
Infix "||?" := or_default (at level 50, left associativity).
Arguments or_default : simpl never.

(** The [data] object of a job: [{...data, _order, _originalData,
    _retryCount, _maxRetries, _previousJobId}].  [fields] holds the
    properties copied by the spread; the underscore properties are written
    after the spread and so shadow any user property of the same name. *)
Record JobData := {
  fields : Payload;
  _order : option Z;
  _originalData : option Payload;
  _retryCount : option Z;
  _maxRetries : option Z;
  _previousJobId : option string;
}.

Record Job := {
  id : string;
  name : string;
  data : JobData;
  delay : Z;
}.

(** The options object of [queue.add]. *)
Record JobsOptions := {
  opt_delay : option Z;
  opt_priority : option Z;
  opt_attempts : option Z;
  opt_backoff : option bool;
  opt_jobId : option string;
}.

Definition no_options : JobsOptions :=
  {| opt_delay := None; opt_priority := None; opt_attempts := None;
     opt_backoff := None; opt_jobId := None |}.

(** A registered processor: [async (data, job) => result], which returns or
    throws.  User code is taken to leave the scheduler alone. *)
Abbreviation Processor := (option Payload -> Job -> outcome value).

(** ** The backend collaborator *)

Module Bull.

Inductive status := waiting | delayed | active | completed | failed.

Definition status_eqb (a b : status) : bool :=
  match a, b with
  | waiting, waiting | delayed, delayed | active, active
  | completed, completed | failed, failed => true
  | _, _ => false
  end.

(** Modelled from the spec: the durable backend of section 6
    ([enqueue], [listJobs], [counts], [pause], [resume]); it is the
    [bullmq] package, which is not part of src/.  The store keeps every
    job in arrival order next to its current status; [connected] is the
    connection behind the [Queue] handle, and while it is [false] every
    call on the handle throws. *)
#[projections(primitive)] Record Redis := {
  jobs : list (Job * status);
  counter : Z;
  connected : bool;
  paused : bool;
}.

Definition empty : Redis :=
  {| jobs := []; counter := 0; connected := true; paused := false |}.

Definition connection_closed : exn := Error "Connection is closed.".

(** [new Queue(name, {defaultJobOptions})], [new QueueScheduler(name)] and
    [new Worker(name, callback, {concurrency, ...})] are handles. *)
Record Queue := {
  q_name : string;
  removeOnComplete : Z;
  removeOnFail : Z;
  q_attempts : Z;
}.

Record QueueScheduler := { qs_name : string }.

(** A worker delivers until it is closed. *)
Record Worker := { w_name : string; concurrency : Z; running : bool }.

Record JobCounts := {
  n_waiting : Z;
  n_active : Z;
  n_completed : Z;
  n_failed : Z;
  n_delayed : Z;
}.

Definition with_status (st : status) (r : Redis) : list Job :=
  map fst (filter (fun p => status_eqb (snd p) st = true) (jobs r)).

Definition count (st : status) (r : Redis) : Z :=
  Z.of_nat (length (with_status st r)).

(** Modelled from the spec: [enqueue] of section 6, which is
    [queue.add(name, data, opts)] of [bullmq].  The job gets [opts.jobId] or
    else the next counter value as its id, and is stored as delayed when
    [opts.delay] is positive and as waiting otherwise. *)
Definition add (nm : string) (d : JobData) (o : JobsOptions) (r : Redis)
  : outcome Job * Redis :=
  if connected r then
    let auto := counter r + 1 in
    let j := {| id := default (pretty auto) (opt_jobId o);
                name := nm; data := d;
                delay := default 0 (opt_delay o) |} in
    let st := if 0 <? delay j then delayed else waiting in
    (Return j,
     {| jobs := jobs r ++ [(j, st)];
        counter := match opt_jobId o with Some _ => counter r | None => auto end;
        connected := connected r; paused := paused r |})
  else (Throw connection_closed, r).

(** Modelled from the spec: [listJobs] of section 6, which is
    [queue.getJobs(status, 0, -1)] of [bullmq]; a read. *)
Definition getJobs (st : status) (r : Redis) : outcome (list Job) * Redis :=
  if connected r then (Return (with_status st r), r)
  else (Throw connection_closed, r).

(** Modelled from the spec: [counts] of section 6, which is
    [queue.getJobCounts()] of [bullmq]; a read. *)
Definition getJobCounts (r : Redis) : outcome JobCounts * Redis :=
  if connected r then
    (Return {| n_waiting := count waiting r; n_active := count active r;
               n_completed := count completed r; n_failed := count failed r;
               n_delayed := count delayed r |}, r)
  else (Throw connection_closed, r).

(** Modelled from the spec: [pause] and [resume] of section 6. *)
Definition set_paused (b : bool) (r : Redis) : outcome unit * Redis :=
  if connected r then
    (Return tt, {| jobs := jobs r; counter := counter r;
                   connected := connected r; paused := b |})
  else (Throw connection_closed, r).

(** Modelled from the spec: the backend-reported status of section 3;
    the status of the [i]-th stored job becomes [st]. *)
Definition move (i : nat) (st : status) (r : Redis) : Redis :=
  {| jobs := alter (fun p => (fst p, st)) i (jobs r);
     counter := counter r; connected := connected r; paused := paused r |}.

(** The connection behind the queue handle goes down or comes back. *)
Definition set_connected (b : bool) (r : Redis) : Redis :=
  {| jobs := jobs r; counter := counter r; connected := b;
     paused := paused r |}.

(** The elements of [l] from index [first] to index [last], both
    inclusive; a negative [last] stands for the last index. *)
Definition range {A} (first last : Z) (l : list A) : list A :=
  let stop := if last <? 0 then Z.of_nat (length l) else last + 1 in
  take (Z.to_nat (stop - Z.max 0 first)) (drop (Z.to_nat first) l).

(** Modelled from the spec: [listJobs] of section 6 with a range, which
    is [queue.getJobs(status, start, end)] of [bullmq]; a read. *)
Definition getJobsRange (st : status) (first last : Z) (r : Redis)
  : outcome (list Job) * Redis :=
  if connected r then (Return (range first last (with_status st r)), r)
  else (Throw connection_closed, r).

(** Modelled from the spec: [queue.getJob(id)] of [bullmq], the stored
    job with that id, or [undefined]. *)
Definition getJob (i : string) (r : Redis) : outcome (option Job) * Redis :=
  if connected r then
    (Return (fst <$> List.find (fun p => String.eqb (id (fst p)) i) (jobs r)), r)
  else (Throw connection_closed, r).

(** Modelled from the spec: [close] of section 6 on the queue handle,
    which gives up the connection behind it. *)
Definition close (r : Redis) : outcome unit * Redis :=
  (Return tt, {| jobs := jobs r; counter := counter r;
                 connected := false; paused := paused r |}).

(** Modelled from the spec: [close] of section 6 on the worker, which
    stops the deliveries. *)
Definition stopped (wk : Worker) : Worker :=
  {| w_name := w_name wk; concurrency := concurrency wk; running := false |}.

End Bull.

(** ** The class instance and the world *)

#[projections(primitive)] Record OrderedQueueWithRetry := {
  queueName : string;
  queue : option Bull.Queue;
  worker : option Bull.Worker;
  scheduler : option Bull.QueueScheduler;
  isInitialized : bool;
  processingOrder : gmap string (option Z);
  currentOrder : Z;
  maxRetries : Z;
  retryDelay : Z;
  processors : gmap string Processor;
}.

(** [new OrderedQueueWithRetry(queueName)]. *)
Definition constructor (qn : string) : OrderedQueueWithRetry :=
  {| queueName := qn; queue := None; worker := None; scheduler := None;
     isInitialized := false; processingOrder := ∅; currentOrder := 0;
     maxRetries := 3; retryDelay := 60000; processors := ∅ |}.

Inductive level := log | error | warn.

(** One console call: its level, its message text (interpolated values are
    left as written in the template, double quotes are left out) and the
    error object passed, if any. *)
Record LogEntry := {
  lvl : level;
  text : string;
  arg : option exn;
}.

#[projections(primitive)] Record World := {
  this : OrderedQueueWithRetry;
  redis : Bull.Redis;
  clock : Z;
  console : list LogEntry;
}.

(** ** The monad of methods *)

Definition M (A : Type) : Type := World -> outcome A * World.

#[global] Instance M_ret : MRet M := fun A a w => (Return a, w).

#[global] Instance M_bind : MBind M := fun A B f m w =>
  match m w with
  | (Return a, w') => f a w'
  | (Throw e, w') => (Throw e, w')
  end.

Definition throw {A} (e : exn) : M A := fun w => (Throw e, w).

(** [try { m } catch (e) { h e }]. *)
Definition try_catch {A} (m : M A) (h : exn -> M A) : M A := fun w =>
  match m w with
  | (Return a, w') => (Return a, w')
  | (Throw e, w') => h e w'
  end.

Definition get_this : M OrderedQueueWithRetry := fun w => (Return (this w), w).

Definition update_this (f : OrderedQueueWithRetry -> OrderedQueueWithRetry)
  : M unit := fun w =>
  (Return tt, {| this := f (this w); redis := redis w; clock := clock w;
                 console := console w |}).

(** A call on the backend. *)
Definition on_redis {A} (f : Bull.Redis -> outcome A * Bull.Redis) : M A :=
  fun w =>
    let '(o, r) := f (redis w) in
    (o, {| this := this w; redis := r; clock := clock w;
           console := console w |}).

Definition Date_now : M Z := fun w => (Return (clock w), w).

Definition console_write (l : level) (s : string) (e : option exn) : M unit :=
  fun w =>
    (Return tt, {| this := this w; redis := redis w; clock := clock w;
                   console := console w ++ [{| lvl := l; text := s; arg := e |}] |}).

Definition console_log (s : string) : M unit := console_write log s None.
Definition console_error (s : string) (e : exn) : M unit :=
  console_write error s (Some e).

(** The result of a processor, as the result of an awaited call. *)
Definition await {A} (o : outcome A) : M A := fun w => (o, w).

(** Calling a method of [this.queue]: a [null] queue is a [TypeError]. *)
Definition with_queue {A} (method : string)
  (f : Bull.Queue -> Bull.Redis -> outcome A * Bull.Redis) : M A :=
  self ← get_this;
  match queue self with
  | None => throw (TypeError ("Cannot read properties of null (reading '"
                              +:+ method +:+ "')"))
  | Some q => on_redis (f q)
  end.

(** Assignments to the properties of [this]. *)
Definition set_queue (q : option Bull.Queue) (o : OrderedQueueWithRetry) :=
  {| queueName := queueName o; queue := q; worker := worker o;
     scheduler := scheduler o; isInitialized := isInitialized o;
     processingOrder := processingOrder o; currentOrder := currentOrder o;
     maxRetries := maxRetries o; retryDelay := retryDelay o;
     processors := processors o |}.

Definition set_worker (x : option Bull.Worker) (o : OrderedQueueWithRetry) :=
  {| queueName := queueName o; queue := queue o; worker := x;
     scheduler := scheduler o; isInitialized := isInitialized o;
     processingOrder := processingOrder o; currentOrder := currentOrder o;
     maxRetries := maxRetries o; retryDelay := retryDelay o;
     processors := processors o |}.

Definition set_scheduler (x : option Bull.QueueScheduler)
  (o : OrderedQueueWithRetry) :=
  {| queueName := queueName o; queue := queue o; worker := worker o;
     scheduler := x; isInitialized := isInitialized o;
     processingOrder := processingOrder o; currentOrder := currentOrder o;
     maxRetries := maxRetries o; retryDelay := retryDelay o;
     processors := processors o |}.

Definition set_isInitialized (b : bool) (o : OrderedQueueWithRetry) :=
  {| queueName := queueName o; queue := queue o; worker := worker o;
     scheduler := scheduler o; isInitialized := b;
     processingOrder := processingOrder o; currentOrder := currentOrder o;
     maxRetries := maxRetries o; retryDelay := retryDelay o;
     processors := processors o |}.

Definition set_processingOrder (m : gmap string (option Z))
  (o : OrderedQueueWithRetry) :=
  {| queueName := queueName o; queue := queue o; worker := worker o;
     scheduler := scheduler o; isInitialized := isInitialized o;
     processingOrder := m; currentOrder := currentOrder o;
     maxRetries := maxRetries o; retryDelay := retryDelay o;
     processors := processors o |}.

Definition set_currentOrder (n : Z) (o : OrderedQueueWithRetry) :=
  {| queueName := queueName o; queue := queue o; worker := worker o;
     scheduler := scheduler o; isInitialized := isInitialized o;
     processingOrder := processingOrder o; currentOrder := n;
     maxRetries := maxRetries o; retryDelay := retryDelay o;
     processors := processors o |}.

Definition set_retry (m d : Z) (o : OrderedQueueWithRetry) :=
  {| queueName := queueName o; queue := queue o; worker := worker o;
     scheduler := scheduler o; isInitialized := isInitialized o;
     processingOrder := processingOrder o; currentOrder := currentOrder o;
     maxRetries := m; retryDelay := d;
     processors := processors o |}.

Definition set_processors (p : gmap string Processor)
  (o : OrderedQueueWithRetry) :=
  {| queueName := queueName o; queue := queue o; worker := worker o;
     scheduler := scheduler o; isInitialized := isInitialized o;
     processingOrder := processingOrder o; currentOrder := currentOrder o;
     maxRetries := maxRetries o; retryDelay := retryDelay o;
     processors := p |}.

(** [this.processingOrder.set(k, v)] and [this.processingOrder.delete(k)]. *)
Definition processingOrder_set (k : string) (v : option Z) : M unit :=
  update_this (fun o => set_processingOrder (<[k := v]> (processingOrder o)) o).

Definition processingOrder_delete (k : string) : M unit :=
  update_this (fun o => set_processingOrder (delete k (processingOrder o)) o).

(** [this.currentOrder++]: yields the old value. *)
Definition currentOrder_post_increment : M Z :=
  self ← get_this;
  update_this (set_currentOrder (currentOrder self + 1));;
  mret (currentOrder self).

(** [array.forEach(f)]. *)
Fixpoint forEach {A} (f : A -> M unit) (l : list A) : M unit :=
  match l with
  | [] => mret tt
  | x :: l' => f x;; forEach f l'
  end.

(** ** The methods of the class *)

Definition not_initialized : exn :=
  Error "Queue not initialized. Call initialize() first.".

Definition initialize : M unit :=
  try_catch
    (self ← get_this;
     update_this (set_queue (Some {| Bull.q_name := queueName self;
                                     Bull.removeOnComplete := 100;
                                     Bull.removeOnFail := 50;
                                     Bull.q_attempts := 1 |}));;
     update_this (set_scheduler (Some {| Bull.qs_name := queueName self |}));;
     update_this (set_isInitialized true);;
     console_log "Ordered Queue with Retry ${this.queueName} initialized successfully")
    (fun error =>
       console_error "Failed to initialize ordered queue with retry:" error;;
       throw error).

Definition registerProcessor (jobName : string) (processor : Processor)
  : M unit :=
  update_this (fun o => set_processors (<[jobName := processor]> (processors o)) o);;
  console_log "Processor registered for job type: ${jobName}".

(** [{...options, attempts: 1, backoff: false}]. *)
Definition single_attempt (options : JobsOptions) : JobsOptions :=
  {| opt_delay := opt_delay options; opt_priority := opt_priority options;
     opt_attempts := Some 1; opt_backoff := Some false;
     opt_jobId := opt_jobId options |}.

Definition addJob (jobName : string) (data : Payload) (options : JobsOptions)
  : M Job :=
  self ← get_this;
  if negb (isInitialized self) then throw not_initialized
  else
    try_catch
      (order ← currentOrder_post_increment;
       self ← get_this;
       job ← with_queue "add"
               (fun _ => Bull.add jobName
                  {| fields := data;
                     _order := Some order;
                     _originalData := Some data;
                     _retryCount := Some 0;
                     _maxRetries := Some (maxRetries self);
                     _previousJobId := None |}
                  (single_attempt options));
       processingOrder_set (id job) (Some order);;
       console_log "Job ${jobName} added with ID: ${job.id}, order: ${order}";;
       mret job)
      (fun error =>
         console_error "Failed to add job:" error;;
         throw error).

Definition handleJobFailure (job : Job) (err : exn) : M unit :=
  self ← get_this;
  let retryCount := _retryCount (data job) ||? 0 in
  let maxRetries := _maxRetries (data job) ||? maxRetries self in
  if retryCount >=? maxRetries then
    console_log "Job ${job.id} (Order: ${job.data._order}) exceeded max retries (${maxRetries}), marking as permanently failed"
  else
    try_catch
      (console_log "Job ${job.id} (Order: ${job.data._order}) failed, scheduling retry ${retryCount + 1}/${maxRetries} in ${this.retryDelay}ms";;
       self ← get_this;
       now ← Date_now;
       retryJob ← with_queue "add"
                    (fun _ => Bull.add (name job)
                       {| fields := default ∅ (_originalData (data job));
                          _order := _order (data job);
                          _originalData := _originalData (data job);
                          _retryCount := Some (retryCount + 1);
                          _maxRetries := Some maxRetries;
                          _previousJobId := Some (id job) |}
                       {| opt_delay := Some (retryDelay self);
                          opt_priority := None;
                          opt_attempts := Some 1;
                          opt_backoff := Some false;
                          opt_jobId := Some ("retry_" +:+ id job +:+ "_"
                                             +:+ pretty now) |});
       processingOrder_set (id retryJob) (_order (data job));;
       console_log "Retry job scheduled with ID: ${retryJob.id}, order: ${job.data._order}")
      (fun retryError =>
         console_error "Failed to schedule retry job:" retryError).

(** The callback handed to [new Worker(...)] in [start]. *)
Definition worker_callback (job : Job) : M value :=
  console_log "Processing ordered job: ${name} (ID: ${job.id}, Order: ${data._order}, Retry: ${data._retryCount})";;
  try_catch
    (self ← get_this;
     match processors self !! name job with
     | None =>
         throw (Error ("No processor registered for job type: " +:+ name job))
     | Some processor =>
         result ← await (processor (_originalData (data job)) job);
         console_log "Ordered job ${name} (ID: ${job.id}, Order: ${data._order}) completed successfully";;
         mret result
     end)
    (fun err =>
       console_error "Ordered job ${name} (ID: ${job.id}, Order: ${data._order}) failed:" err;;
       handleJobFailure job err;;
       throw err).

(** The handlers that [start] attaches with [this.worker.on]; [error] and
    [stalled] are events of the connection and of the stall detector,
    which the model does not raise. *)
Definition on_completed (job : Job) (result : value) : M unit :=
  console_log "Ordered job ${job.name} (ID: ${job.id}, Order: ${job.data._order}) completed with result:".

Definition on_failed (job : Job) (err : exn) : M unit :=
  console_error "Ordered job ${job.name} (ID: ${job.id}, Order: ${job.data._order}) failed:" err.

Definition on_error (err : exn) : M unit :=
  console_error "Ordered worker error:" err.

Definition on_stalled (jobId : string) : M unit :=
  console_write warn "Ordered job ${jobId} stalled" None.

Definition start : M unit :=
  self ← get_this;
  if negb (isInitialized self) then throw not_initialized
  else
    update_this (set_worker (Some {| Bull.w_name := queueName self;
                                     Bull.concurrency := 1;
                                     Bull.running := true |}));;
    console_log "Ordered worker started for queue ${this.queueName} with concurrency 1".

(** [array.sort(compare)]: a stable sort; [x] goes before [y] when
    [compare x y <= 0]. *)
Fixpoint sort_insert {A} (compare : A -> A -> Z) (x : A) (l : list A) : list A :=
  match l with
  | [] => [x]
  | y :: l' =>
      if compare x y <=? 0 then x :: y :: l' else y :: sort_insert compare x l'
  end.

Definition Array_sort {A} (compare : A -> A -> Z) (l : list A) : list A :=
  foldr (sort_insert compare) [] l.

(** An element of [orderedWaiting] or [orderedDelayed]; only the latter
    carries [delay]. *)
Record OrderedJob := {
  oj_id : string;
  oj_name : string;
  order : Z;
  retryCount : Z;
  oj_delay : option Z;
}.

(** The object returned by [getOrderedJobCounts]: the backend counts spread
    first, then the two sorted views and the three scalars. *)
Record OrderedCounts := {
  jobCounts : Bull.JobCounts;
  orderedWaiting : list OrderedJob;
  orderedDelayed : list OrderedJob;
  totalOrder : Z;
  oc_maxRetries : Z;
  oc_retryDelay : Z;
}.

Definition waiting_view (job : Job) : OrderedJob :=
  {| oj_id := id job; oj_name := name job;
     order := _order (data job) ||? 0;
     retryCount := _retryCount (data job) ||? 0;
     oj_delay := None |}.

Definition delayed_view (job : Job) : OrderedJob :=
  {| oj_id := id job; oj_name := name job;
     order := _order (data job) ||? 0;
     retryCount := _retryCount (data job) ||? 0;
     oj_delay := Some (delay job) |}.

(** [(a, b) => a.order - b.order]. *)
Definition by_order (a b : OrderedJob) : Z := order a - order b.

Definition getOrderedJobCounts : M OrderedCounts :=
  self ← get_this;
  if negb (isInitialized self) then throw not_initialized
  else
    try_catch
      (jobCounts ← with_queue "getJobCounts" (fun _ => Bull.getJobCounts);
       waitingJobs ← with_queue "getJobs" (fun _ => Bull.getJobs Bull.waiting);
       delayedJobs ← with_queue "getJobs" (fun _ => Bull.getJobs Bull.delayed);
       let orderedWaiting := Array_sort by_order (map waiting_view waitingJobs) in
       let orderedDelayed := Array_sort by_order (map delayed_view delayedJobs) in
       self ← get_this;
       mret {| jobCounts := jobCounts;
               orderedWaiting := orderedWaiting;
               orderedDelayed := orderedDelayed;
               totalOrder := currentOrder self;
               oc_maxRetries := maxRetries self;
               oc_retryDelay := retryDelay self |})
      (fun err =>
         console_error "Failed to get ordered job counts:" err;;
         throw err).

Definition setRetryConfig (maxRetries retryDelay : Z) : M unit :=
  update_this (set_retry maxRetries retryDelay);;
  console_log "Retry config updated: maxRetries=${maxRetries}, retryDelay=${retryDelay}ms".

Definition cleanupOrderedJobs : M unit :=
  try_catch
    (completedJobs ← with_queue "getJobs" (fun _ => Bull.getJobs Bull.completed);
     failedJobs ← with_queue "getJobs" (fun _ => Bull.getJobs Bull.failed);
     forEach (fun job => processingOrder_delete (id job))
             (completedJobs ++ failedJobs);;
     console_log "Cleaned up ${completedJobs.length + failedJobs.length} completed/failed jobs from order memory")
    (fun err => console_error "Failed to cleanup ordered jobs:" err).

Definition getJob (jobId : string) : M (option Job) :=
  self ← get_this;
  if negb (isInitialized self) then throw not_initialized
  else with_queue "getJob" (fun _ => Bull.getJob jobId).

(** [getJobs(status = 'waiting', start = 0, end = 100)]. *)
Definition getJobs (status : Bull.status) (first last : Z) : M (list Job) :=
  self ← get_this;
  if negb (isInitialized self) then throw not_initialized
  else with_queue "getJobs" (fun _ => Bull.getJobsRange status first last).

Definition pause : M unit :=
  self ← get_this;
  if negb (isInitialized self) then throw not_initialized
  else
    with_queue "pause" (fun _ => Bull.set_paused true);;
    console_log "Ordered Queue ${this.queueName} paused".

Definition resume : M unit :=
  self ← get_this;
  if negb (isInitialized self) then throw not_initialized
  else
    with_queue "resume" (fun _ => Bull.set_paused false);;
    console_log "Ordered Queue ${this.queueName} resumed".

(** [scheduler.close()] releases the delay resource of the backend; the
    model has nothing to record for it. *)
Definition QueueScheduler_close : M unit := mret tt.

Definition close : M unit :=
  self ← get_this;
  (if worker self is Some wk
   then update_this (set_worker (Some (Bull.stopped wk))) else mret tt);;
  (if scheduler self is Some _ then QueueScheduler_close else mret tt);;
  (if queue self is Some _ then on_redis Bull.close else mret tt);;
  console_log "Ordered Queue ${this.queueName} closed".

(** ** The scheduler and its environment as a transition system *)

(** A new scheduler over an empty queue; no other producer writes to the
    queue. *)
Definition new_world (qn : string) : World :=
  {| this := constructor qn; redis := Bull.empty; clock := 0; console := [] |}.

Definition set_redis (r : Bull.Redis) (w : World) : World :=
  {| this := this w; redis := r; clock := clock w; console := console w |}.

Definition set_clock (t : Z) (w : World) : World :=
  {| this := this w; redis := redis w; clock := t; console := console w |}.

(** The [i]-th stored job, when the backend can hand it to a worker now:
    the queue is not paused and the job is waiting.  The worker has a
    connection of its own, so this does not depend on [Bull.connected],
    which is the connection behind [this.queue]. *)
Definition ready (r : Bull.Redis) (i : nat) : option Job :=
  if Bull.paused r then None
  else
    match Bull.jobs r !! i with
    | Some (job, Bull.waiting) => Some job
    | _ => None
    end.

(** Whether [this.worker] is a worker that has not been closed.  [start]
    assigns [this.worker] without closing the worker it held, and [close]
    closes the one it holds: a worker that a second [start] has replaced
    is out of reach of [this] and is not followed here, so nothing is
    claimed about the deliveries made after [close]. *)
Definition delivering (w : World) : bool :=
  match worker (this w) with
  | Some wk => Bull.running wk
  | None => false
  end.

(** The world in which the callback runs for the [i]-th job. *)
Definition taken (i : nat) (w : World) : World :=
  set_redis (Bull.move i Bull.active (redis w)) w.

(** Modelled from the spec: the delivery loop of section 6 ([deliver]) at
    concurrency 1 with one attempt per job, which is the [bullmq] [Worker]
    and not part of src/.  The [i]-th stored job is handed to the callback
    of [start] when a worker is running and the job is ready; it is active
    while the callback runs, and ends completed when the callback returns
    and failed when it throws; the worker then emits [completed] or
    [failed].  Otherwise nothing happens. *)
Definition deliver (i : nat) : M unit := fun w =>
  match delivering w, ready (redis w) i with
  | true, Some job =>
      let '(o, w') := worker_callback job (taken i w) in
      match o with
      | Return result =>
          on_completed job result
            (set_redis (Bull.move i Bull.completed (redis w')) w')
      | Throw err =>
          on_failed job err (set_redis (Bull.move i Bull.failed (redis w')) w')
      end
  | _, _ => (Return tt, w)
  end.

(** Modelled from the spec: readiness (glossary) of a delayed job, decided
    by the backend; the [i]-th stored job, if delayed, becomes waiting. *)
Definition promote (i : nat) : M unit := fun w =>
  match Bull.jobs (redis w) !! i with
  | Some (_, Bull.delayed) =>
      (Return tt, set_redis (Bull.move i Bull.waiting (redis w)) w)
  | _ => (Return tt, w)
  end.

(** What can happen to a world: a call of a public method, or a move of
    the environment (a delivery, a delay that elapses, time passing, the
    connection going down or coming back). *)
Inductive event :=
  | Initialize
  | RegisterProcessor (jobName : string) (processor : Processor)
  | AddJob (jobName : string) (data : Payload) (options : JobsOptions)
  | Start
  | SetRetryConfig (maxRetries retryDelay : Z)
  | GetOrderedJobCounts
  | CleanupOrderedJobs
  | Pause
  | Resume
  | Close
  | Deliver (i : nat)
  | Promote (i : nat)
  | Tick (ms : Z)
  | Connection (up : bool).

Definition ignore {A} (m : M A) : World -> World := fun w => snd (m w).

Definition step (ev : event) : World -> World :=
  match ev with
  | Initialize => ignore initialize
  | RegisterProcessor n p => ignore (registerProcessor n p)
  | AddJob n d o => ignore (addJob n d o)
  | Start => ignore start
  | SetRetryConfig m d => ignore (setRetryConfig m d)
  | GetOrderedJobCounts => ignore getOrderedJobCounts
  | CleanupOrderedJobs => ignore cleanupOrderedJobs
  | Pause => ignore pause
  | Resume => ignore resume
  | Close => ignore close
  | Deliver i => ignore (deliver i)
  | Promote i => ignore (promote i)
  | Tick ms => fun w => set_clock (clock w + Z.max 0 ms) w
  | Connection up => fun w => set_redis (Bull.set_connected up (redis w)) w
  end.

Definition run (evs : list event) (w : World) : World :=
  foldl (fun w ev => step ev w) w evs.

(** * The vocabulary of the properties *)

(** The envelope that [handleJobFailure] hands to [queue.add] for a failed
    [job], given the budget [m] it settled on. *)
Definition retry_data (job : Job) (m : Z) : JobData :=
  {| fields := default ∅ (_originalData (data job));
     _order := _order (data job);
     _originalData := _originalData (data job);
     _retryCount := Some ((_retryCount (data job) ||? 0) + 1);
     _maxRetries := Some m;
     _previousJobId := Some (id job) |}.

Definition retry_job (job : Job) (m : Z) (w : World) : Job :=
  {| id := "retry_" +:+ id job +:+ "_" +:+ pretty (clock w);
     name := name job;
     data := retry_data job m;
     delay := retryDelay (this w) |}.

Definition retry_status (w : World) : Bull.status :=
  if 0 <? retryDelay (this w) then Bull.delayed else Bull.waiting.

(** The budget [handleJobFailure] settles on. *)
Definition budget (job : Job) (w : World) : Z :=
  _maxRetries (data job) ||? maxRetries (this w).

(** The error raised inside the [try] block of the callback, if any. *)
Definition handler_error (job : Job) (w : World) : option exn :=
  match processors (this w) !! name job with
  | None => Some (Error ("No processor registered for job type: " +:+ name job))
  | Some processor =>
      match processor (_originalData (data job)) job with
      | Return _ => None
      | Throw e => Some e
      end
  end.

Definition logged (l : level) (s : string) (e : option exn) (w : World) : World :=
  {| this := this w; redis := redis w; clock := clock w;
     console := console w ++ [{| lvl := l; text := s; arg := e |}] |}.

(** The world in which [handleJobFailure] runs: the callback has logged the
    start of the processing and the failure. *)
Definition at_failure (e : exn) (w : World) : World :=
  logged error
    "Ordered job ${name} (ID: ${job.id}, Order: ${data._order}) failed:" (Some e)
    (logged log
       "Processing ordered job: ${name} (ID: ${job.id}, Order: ${data._order}, Retry: ${data._retryCount})"
       None w).

(** Two worlds that differ at most in the console and in the registry of
    processors. *)
Definition similar (w1 w2 : World) : Prop :=
  redis w1 = redis w2 /\ clock w1 = clock w2
  /\ queue (this w1) = queue (this w2)
  /\ processingOrder (this w1) = processingOrder (this w2)
  /\ currentOrder (this w1) = currentOrder (this w2)
  /\ maxRetries (this w1) = maxRetries (this w2)
  /\ retryDelay (this w1) = retryDelay (this w2).

(** The envelope built by [addJob] in world [w]. *)
Definition first_data (d : Payload) (w : World) : JobData :=
  {| fields := d;
     _order := Some (currentOrder (this w));
     _originalData := Some d;
     _retryCount := Some 0;
     _maxRetries := Some (maxRetries (this w));
     _previousJobId := None |}.

Definition first_job (n : string) (d : Payload) (o : JobsOptions) (w : World)
  : Job :=
  {| id := default (pretty (Bull.counter (redis w) + 1)) (opt_jobId o);
     name := n; data := first_data d w;
     delay := default 0 (opt_delay o) |}.

(** [for (const [n, d, o] of calls) jobs.push(await addJob(n, d, o))]. *)
Fixpoint addJobs (calls : list (string * Payload * JobsOptions)) : M (list Job) :=
  match calls with
  | [] => mret []
  | (n, d, o) :: rest =>
      job ← addJob n d o;
      jobs ← addJobs rest;
      mret (job :: jobs)
  end.

Definition order_of (job : Job) : option Z := _order (data job).

(** The Order Index after the ids of [l] were deleted from [m]. *)
Definition delete_ids (l : list Job) (m : gmap string (option Z))
  : gmap string (option Z) :=
  foldl (fun m job => delete (id job) m) m l.

(** The jobs [cleanupOrderedJobs] iterates over. *)
Definition finished (r : Bull.Redis) : list Job :=
  Bull.with_status Bull.completed r ++ Bull.with_status Bull.failed r.

(** The order in which [sort] leaves two elements, by their key. *)
Definition ascending {A} (key : A -> Z) (a b : A) : Prop := key a <= key b.

Definition sorted_waiting (r : Bull.Redis) : list OrderedJob :=
  Array_sort by_order (map waiting_view (Bull.with_status Bull.waiting r)).

Definition sorted_delayed (r : Bull.Redis) : list OrderedJob :=
  Array_sort by_order (map delayed_view (Bull.with_status Bull.delayed r)).

Definition jobs_of (w : World) : list (Job * Bull.status) := Bull.jobs (redis w).
Definition counter_of (w : World) : Z := currentOrder (this w).

(** Every step either leaves the stored jobs alone, or stores a first
    attempt under the next order, or changes the status of a job that was
    not finished, or marks a waiting job failed and stores its retry. *)
Inductive effect (w w' : World) : Prop :=
  | effect_none :
      jobs_of w' = jobs_of w ->
      counter_of w <= counter_of w' ->
      effect w w'
  | effect_submitted (job : Job) (st : Bull.status) :
      jobs_of w' = jobs_of w ++ [(job, st)] ->
      _order (data job) = Some (counter_of w) ->
      _retryCount (data job) = Some 0 ->
      is_Some (_maxRetries (data job)) ->
      counter_of w' = counter_of w + 1 ->
      effect w w'
  | effect_moved (i : nat) (job : Job) (st st' : Bull.status) :
      jobs_of w !! i = Some (job, st) ->
      st <> Bull.completed ->
      st <> Bull.failed ->
      jobs_of w' = <[i := (job, st')]> (jobs_of w) ->
      counter_of w' = counter_of w ->
      effect w w'
  | effect_retried (i : nat) (job retry : Job) (st : Bull.status) (m : Z) :
      jobs_of w !! i = Some (job, Bull.waiting) ->
      jobs_of w' = <[i := (job, Bull.failed)]> (jobs_of w) ++ [(retry, st)] ->
      _order (data retry) = _order (data job) ->
      _retryCount (data retry) = Some ((_retryCount (data job) ||? 0) + 1) ->
      _maxRetries (data retry) = Some (_maxRetries (data job) ||? m) ->
      _retryCount (data job) ||? 0 < _maxRetries (data job) ||? m ->
      counter_of w' = counter_of w ->
      name retry = name job ->
      _originalData (data retry) = _originalData (data job) ->
      _previousJobId (data retry) = Some (id job) ->
      effect w w'.

Definition count_of (job : Job) : Z := _retryCount (data job) ||? 0.

(** A stored job carries an order below the counter, a retry count from
    0 on, and a budget; a retry ([1 <= k]) is within its budget. *)
Definition well_formed (c : Z) (job : Job) : Prop :=
  exists o k m,
    _order (data job) = Some o /\ 0 <= o < c
    /\ _retryCount (data job) = Some k /\ 0 <= k
    /\ _maxRetries (data job) = Some m /\ (1 <= k -> k <= m).

(** Of two stored jobs with the same order, the earlier one has failed, the
    later one has the higher retry count, and a nonzero budget of the
    earlier one is the budget of the later one. *)
Definition chained (l : list (Job * Bull.status)) : Prop :=
  forall (a b : nat) ja sa jb sb,
    (a < b)%nat ->
    l !! a = Some (ja, sa) ->
    l !! b = Some (jb, sb) ->
    _order (data ja) = _order (data jb) ->
    sa = Bull.failed
    /\ count_of ja < count_of jb
    /\ (forall m, _maxRetries (data ja) = Some m -> m <> 0 ->
          _maxRetries (data jb) = Some m).

Record invariant (w : World) : Prop := {
  inv_counter : 0 <= counter_of w;
  inv_jobs : forall (i : nat) job st,
      jobs_of w !! i = Some (job, st) -> well_formed (counter_of w) job;
  inv_chain : chained (jobs_of w);
}.

(** The jobs stored under order [o], in arrival order: the attempts of one
    lineage. *)
Definition lineage (o : option Z) (l : list (Job * Bull.status))
  : list (Job * Bull.status) :=
  filter (fun p => _order (data (fst p)) = o) l.

Definition attempts (o : option Z) (l : list (Job * Bull.status)) : Z :=
  Z.of_nat (length (lineage o l)).

(** Every stored job of order [o] is completed or failed. *)
Definition settled (o : Z) (l : list (Job * Bull.status)) : Prop :=
  forall (i : nat) job st,
    l !! i = Some (job, st) -> _order (data job) = Some o ->
    st = Bull.completed \/ st = Bull.failed.

(** Every job of order [o] stored in [l'] is stored in [l] at the same
    place with the same status. *)
Definition unchanged (o : Z) (l l' : list (Job * Bull.status)) : Prop :=
  forall (i : nat) job st,
    l' !! i = Some (job, st) -> _order (data job) = Some o ->
    l !! i = Some (job, st).

(** Every stored retry comes after the attempt it retries: the stored job
    whose id it names as [_previousJobId], with the same name, order and
    payload and a retry count one lower. *)
Definition linked (l : list (Job * Bull.status)) : Prop :=
  forall (b : nat) jb sb,
    l !! b = Some (jb, sb) -> 1 <= count_of jb ->
    exists (a : nat) ja sa,
      (a < b)%nat /\ l !! a = Some (ja, sa)
      /\ _previousJobId (data jb) = Some (id ja)
      /\ name jb = name ja
      /\ _order (data jb) = _order (data ja)
      /\ _originalData (data jb) = _originalData (data ja)
      /\ count_of jb = count_of ja + 1.

Definition reachable (w : World) : Prop :=
  exists qn evs, w = run evs (new_world qn).

(** ** Runs of events *)

(** What an event does to the properties of the scheduler other than the
    Order Index. *)
Definition on_this (ev : event) (o : OrderedQueueWithRetry)
  : OrderedQueueWithRetry :=
  match ev with
  | Initialize =>
      set_isInitialized true
        (set_scheduler (Some {| Bull.qs_name := queueName o |})
           (set_queue (Some {| Bull.q_name := queueName o;
                               Bull.removeOnComplete := 100;
                               Bull.removeOnFail := 50;
                               Bull.q_attempts := 1 |}) o))
  | RegisterProcessor n p => set_processors (<[n := p]> (processors o)) o
  | AddJob _ _ _ =>
      if isInitialized o then set_currentOrder (currentOrder o + 1) o else o
  | Start =>
      if isInitialized o
      then set_worker (Some {| Bull.w_name := queueName o;
                               Bull.concurrency := 1;
                               Bull.running := true |}) o
      else o
  | SetRetryConfig m d => set_retry m d o
  | Close =>
      match worker o with
      | Some wk => set_worker (Some (Bull.stopped wk)) o
      | None => o
      end
  | _ => o
  end.

(** The number of [addJob] calls of a run that pass the guard: those made
    when [initialize] has run, before the run ([init]) or in it. *)
Fixpoint submissions (init : bool) (evs : list event) : Z :=
  match evs with
  | [] => 0
  | Initialize :: evs => submissions true evs
  | AddJob _ _ _ :: evs => (if init then 1 else 0) + submissions init evs
  | _ :: evs => submissions init evs
  end.

(** The retry configuration after a run: that of its last
    [setRetryConfig], or else the one before the run. *)
Definition config_after (evs : list event) (c : Z * Z) : Z * Z :=
  foldl (fun c ev =>
           match ev with SetRetryConfig m d => (m, d) | _ => c end) c evs.

(** The registry after a run: the registrations of the run, in call order,
    over the registry before it. *)
Definition registry_after (evs : list event) (ps : gmap string Processor)
  : gmap string Processor :=
  foldl (fun ps ev =>
           match ev with RegisterProcessor n p => <[n := p]> ps | _ => ps end)
        ps evs.

Definition initializes (ev : event) : bool :=
  match ev with Initialize => true | _ => false end.

(** The error a call ends with, if it throws. *)
Definition thrown {A} (o : outcome A) : option exn :=
  match o with Throw e => Some e | Return _ => None end.

(** The error of a guarded method in world [w]: that of the guard, or that
    of the backend behind an initialized scheduler. *)
Definition guarded_error (w : World) : option exn :=
  if isInitialized (this w)
  then (if Bull.connected (redis w) then None else Some Bull.connection_closed)
  else Some not_initialized.

(** Every entry of the Order Index belongs to a stored job: one with that
    id and that order. *)
Definition indexed (w : World) : Prop :=
  forall k v,
    processingOrder (this w) !! k = Some v ->
    exists job st,
      (job, st) ∈ jobs_of w /\ id job = k /\ _order (data job) = v.

(** What a step does to the Order Index: it removes entries, or it records
    a job that is stored afterwards under the order of that job. *)
Inductive indexing (w w' : World) : Prop :=
  | indexing_removes :
      (forall k v, processingOrder (this w') !! k = Some v ->
                   processingOrder (this w) !! k = Some v) ->
      indexing w w'
  | indexing_records (job : Job) (st : Bull.status) :
      (job, st) ∈ jobs_of w' ->
      processingOrder (this w')
        = <[id job := _order (data job)]> (processingOrder (this w)) ->
      indexing w w'.

(** ** Worlds to run the theorems on *)

(** A world used to run the theorems on: an initialized scheduler with a
    started worker and one submitted job. *)
Definition demo_world : World :=
  run [Initialize; Start; AddJob "task" ∅ no_options] (new_world "demo").

Definition demo_job : Job :=
  {| id := "1"; name := "task";
     data := {| fields := ∅; _order := Some 0; _originalData := Some ∅;
                _retryCount := Some 0; _maxRetries := Some 3;
                _previousJobId := None |};
     delay := 0 |}.

(** A processor that always throws. *)
Definition throwing : Processor := fun _ _ => Throw (Error "boom").

(** An initialized scheduler whose connection is down. *)
Definition offline_world : World :=
  run [Initialize; Connection false] (new_world "demo").

Definition three_calls : list (string * Payload * JobsOptions) :=
  [("a", ∅, no_options); ("b", {["x" := VNum 1]}, no_options);
   ("a", ∅, no_options)].

Definition returning : Processor := fun _ _ => Return (VBool true).

(** A world with one completed, one failed and one waiting job, all three
    in the Order Index. *)
Definition mixed_world : World :=
  run [Initialize; SetRetryConfig 0 0;
       RegisterProcessor "good" returning; RegisterProcessor "bad" throwing;
       Start;
       AddJob "good" ∅ no_options; AddJob "bad" ∅ no_options;
       AddJob "good" ∅ no_options;
       Deliver 0; Deliver 1] (new_world "demo").

(** A world whose waiting jobs are listed by the backend with orders
    2, 0, 1: the first two lineages fail once and their retries are stored
    after the third submission. *)
Definition shuffled_world : World :=
  run [Initialize; SetRetryConfig 3 5000;
       RegisterProcessor "bad" throwing; Start;
       AddJob "bad" ∅ no_options; AddJob "bad" ∅ no_options;
       AddJob "bad" ∅ no_options;
       Deliver 0; Deliver 1; Promote 3; Promote 4] (new_world "demo").

(** A lineage submitted under [maxRetries = 0], whose configuration is
    raised to 2 before the first failure. *)
Definition zero_budget_run : World :=
  run [Initialize; SetRetryConfig 0 1000;
       RegisterProcessor "bad" throwing; Start;
       AddJob "bad" ∅ no_options;
       SetRetryConfig 2 1000;
       Deliver 0; Promote 1; Deliver 1; Promote 2; Deliver 2]
      (new_world "demo").

(** A started scheduler with one waiting job and a throwing processor. *)
Definition failing_world : World :=
  run [Initialize; RegisterProcessor "task" throwing; Start;
       AddJob "task" ∅ no_options] (new_world "demo").

(** The same, after the connection has gone down. *)
Definition dropped_world : World :=
  step (Connection false) failing_world.

(** The lineage of [failing_world] after three failed attempts: its fourth
    attempt, the last its budget of 3 allows, is waiting at index 3. *)
Definition last_attempt_world : World :=
  run [Deliver 0; Promote 1; Deliver 1; Promote 2; Deliver 2; Promote 3]
      failing_world.

(** The events that lead to [last_attempt_world] and one more delivery. *)
Definition four_attempts : list event :=
  [Initialize; RegisterProcessor "task" throwing; Start;
   AddJob "task" ∅ no_options;
   Deliver 0; Promote 1; Deliver 1; Promote 2; Deliver 2; Promote 3; Deliver 3].

(** A job put into the queue by another producer: its data has no
    envelope, but for an [_order] the producer may have set. *)
Definition foreign_job (i : string) (o : option Z) : Job :=
  {| id := i; name := "foreign";
     data := {| fields := {["x" := VNum 1]}; _order := o; _originalData := None;
                _retryCount := None; _maxRetries := None;
                _previousJobId := None |};
     delay := 0 |}.

(** An initialized scheduler over a queue that holds three waiting jobs of
    another producer, with orders 1, none and 0. *)
Definition foreign_world : World :=
  set_redis {| Bull.jobs := [(foreign_job "a" (Some 1), Bull.waiting);
                             (foreign_job "b" None, Bull.waiting);
                             (foreign_job "c" (Some 0), Bull.waiting)];
               Bull.counter := 0; Bull.connected := true;
               Bull.paused := false |}
            (step Initialize (new_world "demo")).

(** * Properties *)

(** ** Evaluation of the monad *)

Ltac unfold_M :=
  unfold with_queue, processingOrder_set, processingOrder_delete,
    currentOrder_post_increment, console_log, console_error in *;
  unfold mbind, mret, M_bind, M_ret, try_catch, throw, await, get_this,
    update_this, on_redis, Date_now, console_write in *.

Lemma or_default_Some_nonzero (v d : Z) : v <> 0 -> Some v ||? d = v.
Proof. intros Hv. unfold or_default. destruct (Z.eqb_spec v 0); congruence. Qed.

Lemma or_default_zero (v : Z) : Some v ||? 0 = v.
Proof. unfold or_default. destruct (Z.eqb_spec v 0); congruence. Qed.

(** ** The Retry Coordinator *)

Lemma handleJobFailure_exhausted (job : Job) (err : exn) (w : World) :
  budget job w <= _retryCount (data job) ||? 0 ->
  exists line,
    handleJobFailure job err w =
      (Return tt, {| this := this w; redis := redis w; clock := clock w;
                     console := console w ++ [line] |})
    /\ lvl line = log.
Proof.
  intros Hge. unfold handleJobFailure, budget in *. unfold_M.
  destruct (Z.geb_spec (_retryCount (data job) ||? 0)
              (_maxRetries (data job) ||? maxRetries (this w))); [|lia].
  eexists. split; reflexivity.
Qed.

Lemma handleJobFailure_retry (job : Job) (err : exn) (w : World) q :
  _retryCount (data job) ||? 0 < budget job w ->
  queue (this w) = Some q ->
  Bull.connected (redis w) = true ->
  exists l1 l2,
    handleJobFailure job err w =
      (Return tt,
       {| this := set_processingOrder
                    (<[id (retry_job job (budget job w) w) := _order (data job)]>
                       (processingOrder (this w))) (this w);
          redis := {| Bull.jobs := Bull.jobs (redis w)
                        ++ [(retry_job job (budget job w) w, retry_status w)];
                      Bull.counter := Bull.counter (redis w);
                      Bull.connected := true;
                      Bull.paused := Bull.paused (redis w) |};
          clock := clock w;
          console := (console w ++ [l1]) ++ [l2] |})
    /\ lvl l1 = log /\ lvl l2 = log.
Proof.
  intros Hlt Hq Hc. unfold handleJobFailure, budget in *. unfold_M.
  destruct (Z.geb_spec (_retryCount (data job) ||? 0)
              (_maxRetries (data job) ||? maxRetries (this w))); [lia|].
  cbn. rewrite Hq. cbn. unfold Bull.add. rewrite Hc. cbn.
  do 2 eexists. split; [reflexivity|]. split; reflexivity.
Qed.

Lemma handleJobFailure_rejected (job : Job) (err : exn) (w : World) q :
  _retryCount (data job) ||? 0 < budget job w ->
  queue (this w) = Some q ->
  Bull.connected (redis w) = false ->
  exists l1,
    handleJobFailure job err w =
      (Return tt,
       {| this := this w; redis := redis w; clock := clock w;
          console := (console w ++ [l1])
            ++ [{| lvl := error; text := "Failed to schedule retry job:";
                   arg := Some Bull.connection_closed |}] |})
    /\ lvl l1 = log.
Proof.
  intros Hlt Hq Hc. unfold handleJobFailure, budget in *. unfold_M.
  destruct (Z.geb_spec (_retryCount (data job) ||? 0)
              (_maxRetries (data job) ||? maxRetries (this w))); [lia|].
  cbn. rewrite Hq. cbn. unfold Bull.add. rewrite Hc. cbn.
  destruct (redis w); cbn in *.
  eexists. split; [reflexivity|]. reflexivity.
Qed.

Lemma handleJobFailure_no_queue (job : Job) (err : exn) (w : World) :
  _retryCount (data job) ||? 0 < budget job w ->
  queue (this w) = None ->
  exists l1 l2,
    handleJobFailure job err w =
      (Return tt,
       {| this := this w; redis := redis w; clock := clock w;
          console := (console w ++ [l1]) ++ [l2] |})
    /\ lvl l1 = log /\ lvl l2 = error /\ is_Some (arg l2).
Proof.
  intros Hlt Hq. unfold handleJobFailure, budget in *. unfold_M.
  destruct (Z.geb_spec (_retryCount (data job) ||? 0)
              (_maxRetries (data job) ||? maxRetries (this w))); [lia|].
  cbn. rewrite Hq. cbn.
  do 2 eexists. split; [reflexivity|]. cbn. repeat split. by eexists.
Qed.

(** C1. When a delivery of an envelope with [0 <= retryCount < maxRetries]
    fails and the backend takes the submission, [handleJobFailure] appends
    one new job to the backend: same name, same payload, same [_order],
    same [_maxRetries], [_retryCount] one higher (so in [1, maxRetries]),
    [_previousJobId] the id of the failed attempt; and the Order Index
    maps the new id to the unchanged order. *)
Theorem handleJobFailure_resubmits
  (job : Job) (err : exn) (w : World) (q : Bull.Queue) (k m : Z) :
  _retryCount (data job) = Some k ->
  _maxRetries (data job) = Some m ->
  0 <= k < m ->
  queue (this w) = Some q ->
  Bull.connected (redis w) = true ->
  exists retryJob st w',
    handleJobFailure job err w = (Return tt, w')
    /\ Bull.jobs (redis w') = Bull.jobs (redis w) ++ [(retryJob, st)]
    /\ name retryJob = name job
    /\ fields (data retryJob) = default ∅ (_originalData (data job))
    /\ _originalData (data retryJob) = _originalData (data job)
    /\ _order (data retryJob) = _order (data job)
    /\ _maxRetries (data retryJob) = Some m
    /\ _retryCount (data retryJob) = Some (k + 1)
    /\ 1 <= k + 1 <= m
    /\ _previousJobId (data retryJob) = Some (id job)
    /\ processingOrder (this w') !! id retryJob = Some (_order (data job)).
Proof.
  intros Hk Hm Hkm Hq Hc.
  assert (Hb : budget job w = m).
  { unfold budget. rewrite Hm. apply or_default_Some_nonzero. lia. }
  assert (Hr : _retryCount (data job) ||? 0 = k).
  { rewrite Hk. apply or_default_zero. }
  destruct (handleJobFailure_retry job err w q) as (l1 & l2 & Heq & _);
    [lia | done | done |].
  rewrite Hb in Heq.
  eexists _, _, _. split; [exact Heq|]. cbn.
  split; [reflexivity|]. cbn. rewrite Hr.
  repeat split; try reflexivity; try lia.
  apply lookup_insert_eq.
Qed.

Lemma handleJobFailure_resubmits_witness :
  exists retryJob st w',
    handleJobFailure demo_job (Error "boom") demo_world = (Return tt, w')
    /\ Bull.jobs (redis w') = Bull.jobs (redis demo_world) ++ [(retryJob, st)]
    /\ name retryJob = name demo_job
    /\ fields (data retryJob) = default ∅ (_originalData (data demo_job))
    /\ _originalData (data retryJob) = _originalData (data demo_job)
    /\ _order (data retryJob) = _order (data demo_job)
    /\ _maxRetries (data retryJob) = Some 3
    /\ _retryCount (data retryJob) = Some (0 + 1)
    /\ 1 <= 0 + 1 <= 3
    /\ _previousJobId (data retryJob) = Some (id demo_job)
    /\ processingOrder (this w') !! id retryJob = Some (_order (data demo_job)).
Proof.
  apply (handleJobFailure_resubmits demo_job (Error "boom") demo_world
           {| Bull.q_name := "demo"; Bull.removeOnComplete := 100;
              Bull.removeOnFail := 50; Bull.q_attempts := 1 |} 0 3);
    [reflexivity | reflexivity | lia | reflexivity | reflexivity].
Defined.

(** [handleJobFailure] returns normally in every world. *)
Lemma handleJobFailure_returns (job : Job) (err : exn) (w : World) :
  fst (handleJobFailure job err w) = Return tt.
Proof.
  destruct (Z_lt_le_dec (_retryCount (data job) ||? 0) (budget job w)) as [Hlt|Hge].
  - destruct (queue (this w)) as [q|] eqn:Hq.
    + destruct (Bull.connected (redis w)) eqn:Hc.
      * destruct (handleJobFailure_retry job err w q) as (? & ? & -> & _); done.
      * destruct (handleJobFailure_rejected job err w q) as (? & -> & _); done.
    + destruct (handleJobFailure_no_queue job err w) as (? & ? & -> & _); done.
  - destruct (handleJobFailure_exhausted job err w) as (? & -> & _); done.
Qed.

(** It never touches the order counter, the configuration, the registry or
    the handles. *)
Lemma handleJobFailure_frame (job : Job) (err : exn) (w : World) :
  let w' := snd (handleJobFailure job err w) in
  currentOrder (this w') = currentOrder (this w)
  /\ maxRetries (this w') = maxRetries (this w)
  /\ retryDelay (this w') = retryDelay (this w)
  /\ processors (this w') = processors (this w)
  /\ isInitialized (this w') = isInitialized (this w)
  /\ queue (this w') = queue (this w)
  /\ worker (this w') = worker (this w)
  /\ clock w' = clock w
  /\ Bull.connected (redis w') = Bull.connected (redis w)
  /\ Bull.paused (redis w') = Bull.paused (redis w).
Proof.
  destruct (Z_lt_le_dec (_retryCount (data job) ||? 0) (budget job w)) as [Hlt|Hge].
  - destruct (queue (this w)) as [q|] eqn:Hq.
    + destruct (Bull.connected (redis w)) eqn:Hc.
      * destruct (handleJobFailure_retry job err w q Hlt Hq Hc)
          as (? & ? & -> & _).
        cbn. rewrite ?Hq, ?Hc. done.
      * destruct (handleJobFailure_rejected job err w q Hlt Hq Hc)
          as (? & -> & _).
        cbn. rewrite ?Hq, ?Hc. done.
    + destruct (handleJobFailure_no_queue job err w Hlt Hq) as (? & ? & -> & _).
      cbn. rewrite ?Hq. done.
  - destruct (handleJobFailure_exhausted job err w Hge) as (? & -> & _). done.
Qed.

(** ** The worker callback *)

Lemma worker_callback_fails (job : Job) (w : World) (e : exn) :
  handler_error job w = Some e ->
  worker_callback job w = (Throw e, snd (handleJobFailure job e (at_failure e w))).
Proof.
  unfold handler_error, worker_callback. intros He. unfold_M. cbn.
  destruct (processors (this w) !! name job) as [p|] eqn:Hp.
  - destruct (p (_originalData (data job)) job) eqn:Hr; [done|].
    injection He as ->. cbn.
    pose proof (handleJobFailure_returns job e (at_failure e w)) as Hret.
    unfold at_failure, logged in *.
    destruct (handleJobFailure _ _ _) as [o w']. cbn in *. by subst o.
  - injection He as <-. cbn.
    pose proof (handleJobFailure_returns job
                  (Error ("No processor registered for job type: " +:+ name job))
                  (at_failure (Error ("No processor registered for job type: "
                                      +:+ name job)) w)) as Hret.
    unfold at_failure, logged in *.
    destruct (handleJobFailure _ _ _) as [o w']. cbn in *. by subst o.
Qed.

Lemma worker_callback_succeeds (job : Job) (w : World) :
  handler_error job w = None ->
  exists v w',
    worker_callback job w = (Return v, w')
    /\ this w' = this w /\ redis w' = redis w /\ clock w' = clock w.
Proof.
  unfold handler_error, worker_callback. intros He. unfold_M. cbn.
  destruct (processors (this w) !! name job) as [p|] eqn:Hp; [|done].
  destruct (p (_originalData (data job)) job) eqn:Hr; [|done].
  cbn. eauto 10.
Qed.

(** The error object and the registry play no part in the retry decision. *)
Lemma handleJobFailure_similar (job : Job) (e1 e2 : exn) (w1 w2 : World) :
  similar w1 w2 ->
  similar (snd (handleJobFailure job e1 w1)) (snd (handleJobFailure job e2 w2)).
Proof.
  intros (Hr & Hcl & Hq & Hpo & Hco & Hm & Hd).
  assert (Hb : budget job w1 = budget job w2) by (unfold budget; by rewrite Hm).
  destruct (Z_lt_le_dec (_retryCount (data job) ||? 0) (budget job w1)) as [Hlt|Hge].
  - destruct (queue (this w1)) as [q|] eqn:Hq1.
    + destruct (Bull.connected (redis w1)) eqn:Hc.
      * destruct (handleJobFailure_retry job e1 w1 q Hlt Hq1 Hc)
          as (? & ? & -> & _).
        destruct (handleJobFailure_retry job e2 w2 q) as (? & ? & -> & _);
          [lia | congruence | congruence |].
        unfold similar, retry_job, retry_status. cbn.
        rewrite Hb, Hr, Hcl, Hd, Hpo. repeat split; congruence.
      * destruct (handleJobFailure_rejected job e1 w1 q Hlt Hq1 Hc)
          as (? & -> & _).
        destruct (handleJobFailure_rejected job e2 w2 q) as (? & -> & _);
          [lia | congruence | congruence |].
        unfold similar. cbn. repeat split; congruence.
    + destruct (handleJobFailure_no_queue job e1 w1 Hlt Hq1) as (? & ? & -> & _).
      destruct (handleJobFailure_no_queue job e2 w2) as (? & ? & -> & _);
        [lia | congruence |].
      unfold similar. cbn. repeat split; congruence.
  - destruct (handleJobFailure_exhausted job e1 w1 Hge) as (? & -> & _).
    destruct (handleJobFailure_exhausted job e2 w2) as (? & -> & _); [lia|].
    unfold similar. cbn. repeat split; congruence.
Qed.

(** C5. A delivery whose name has no registered processor goes through the
    same catch block as a processor that throws: the callback rethrows the
    error after [handleJobFailure] ran, and the backend, the Order Index
    and the counter end exactly as they do when a registered processor
    throws.  With the budget exhausted nothing is submitted; with
    [retryCount] below the budget (and a backend that takes the
    submission) one job with [retryCount + 1] and the configured
    [retryDelay] is appended. *)
Theorem no_processor_counts_as_failure
  (job : Job) (w : World) (p : Processor) (e : exn) :
  processors (this w) !! name job = None ->
  p (_originalData (data job)) job = Throw e ->
  exists w1 w2,
    worker_callback job w
      = (Throw (Error ("No processor registered for job type: " +:+ name job)), w1)
    /\ worker_callback job (snd (registerProcessor (name job) p w)) = (Throw e, w2)
    /\ redis w1 = redis w2
    /\ processingOrder (this w1) = processingOrder (this w2)
    /\ currentOrder (this w1) = currentOrder (this w2)
    /\ (budget job w <= _retryCount (data job) ||? 0 -> redis w1 = redis w)
    /\ (_retryCount (data job) ||? 0 < budget job w ->
        is_Some (queue (this w)) -> Bull.connected (redis w) = true ->
        exists retryJob,
          Bull.jobs (redis w1)
            = Bull.jobs (redis w) ++ [(retryJob, retry_status w)]
          /\ _retryCount (data retryJob) = Some ((_retryCount (data job) ||? 0) + 1)
          /\ _maxRetries (data retryJob) = Some (budget job w)
          /\ _order (data retryJob) = _order (data job)
          /\ delay retryJob = retryDelay (this w)).
Proof.
  intros Hnone Hthrow.
  set (missing := Error ("No processor registered for job type: " +:+ name job)).
  set (w_reg := snd (registerProcessor (name job) p w)).
  assert (H1 : handler_error job w = Some missing).
  { unfold handler_error. by rewrite Hnone. }
  assert (H2 : handler_error job w_reg = Some e).
  { unfold handler_error, w_reg, registerProcessor. unfold_M. cbn.
    rewrite lookup_insert_eq. by rewrite Hthrow. }
  eexists _, _.
  split; [exact (worker_callback_fails job w missing H1)|].
  split; [exact (worker_callback_fails job w_reg e H2)|].
  assert (Hsim : similar (at_failure missing w) (at_failure e w_reg)).
  { unfold similar, w_reg, registerProcessor. unfold_M. cbn. done. }
  destruct (handleJobFailure_similar job missing e _ _ Hsim)
    as (Hr & _ & _ & Hpo & Hco & _).
  repeat split; try done.
  - intros Hge.
    destruct (handleJobFailure_exhausted job missing (at_failure missing w))
      as (? & -> & _); done.
  - intros Hlt [q Hq] Hc.
    destruct (handleJobFailure_retry job missing (at_failure missing w) q)
      as (? & ? & -> & _); try done.
    eexists. split; [reflexivity|]. done.
Qed.

Lemma no_processor_counts_as_failure_witness :
  exists w1 w2,
    worker_callback demo_job demo_world
      = (Throw (Error ("No processor registered for job type: " +:+ "task")), w1)
    /\ worker_callback demo_job
         (snd (registerProcessor "task" throwing demo_world))
       = (Throw (Error "boom"), w2)
    /\ redis w1 = redis w2
    /\ processingOrder (this w1) = processingOrder (this w2)
    /\ currentOrder (this w1) = currentOrder (this w2)
    /\ (budget demo_job demo_world <= _retryCount (data demo_job) ||? 0 ->
        redis w1 = redis demo_world)
    /\ (_retryCount (data demo_job) ||? 0 < budget demo_job demo_world ->
        is_Some (queue (this demo_world)) ->
        Bull.connected (redis demo_world) = true ->
        exists retryJob,
          Bull.jobs (redis w1)
            = Bull.jobs (redis demo_world) ++ [(retryJob, retry_status demo_world)]
          /\ _retryCount (data retryJob)
             = Some ((_retryCount (data demo_job) ||? 0) + 1)
          /\ _maxRetries (data retryJob) = Some (budget demo_job demo_world)
          /\ _order (data retryJob) = _order (data demo_job)
          /\ delay retryJob = retryDelay (this demo_world)).
Proof.
  apply (no_processor_counts_as_failure demo_job demo_world throwing
           (Error "boom")); reflexivity.
Defined.

(** ** Submission *)

Lemma addJob_not_initialized n d o (w : World) :
  isInitialized (this w) = false ->
  addJob n d o w = (Throw not_initialized, w).
Proof. intros Hi. unfold addJob. unfold_M. by rewrite Hi. Qed.

Lemma addJob_accepted n d o (w : World) q :
  isInitialized (this w) = true ->
  queue (this w) = Some q ->
  Bull.connected (redis w) = true ->
  exists w',
    addJob n d o w = (Return (first_job n d o w), w')
    /\ this w' = set_processingOrder
                   (<[id (first_job n d o w) := Some (currentOrder (this w))]>
                      (processingOrder (this w)))
                   (set_currentOrder (currentOrder (this w) + 1) (this w))
    /\ Bull.jobs (redis w')
       = Bull.jobs (redis w)
           ++ [(first_job n d o w,
                if 0 <? delay (first_job n d o w) then Bull.delayed
                else Bull.waiting)]
    /\ Bull.connected (redis w') = true
    /\ Bull.paused (redis w') = Bull.paused (redis w)
    /\ clock w' = clock w.
Proof.
  intros Hi Hq Hc. unfold addJob. unfold_M. rewrite Hi. cbn.
  rewrite Hq. cbn. unfold Bull.add. rewrite Hc. cbn.
  eexists. split; [reflexivity|]. cbn. done.
Qed.

Lemma addJob_rejected n d o (w : World) :
  isInitialized (this w) = true ->
  queue (this w) = None \/ Bull.connected (redis w) = false ->
  exists e w',
    addJob n d o w = (Throw e, w')
    /\ this w' = set_currentOrder (currentOrder (this w) + 1) (this w)
    /\ redis w' = redis w
    /\ clock w' = clock w.
Proof.
  intros Hi Hrej. unfold addJob. unfold_M. rewrite Hi. cbn.
  destruct (queue (this w)) as [q|] eqn:Hq; cbn.
  - destruct Hrej as [?|Hc]; [done|]. unfold Bull.add. rewrite Hc. cbn.
    eexists _, _. split; [reflexivity|]. cbn. by destruct (redis w).
  - eexists _, _. split; [reflexivity|]. done.
Qed.

(** The gap, run: the first call is rejected and uses up order 0, the
    second is accepted and gets order 1. *)
Example addJob_gap :
  map (fun p => _order (data (fst p)))
      (Bull.jobs (redis (run [Initialize; Connection false;
                              AddJob "task" ∅ no_options; Connection true;
                              AddJob "task" ∅ no_options] (new_world "demo"))))
  = [Some 1].
Proof. reflexivity. Qed.

Lemma addJobs_from (calls : list (string * Payload * JobsOptions)) :
  forall (w : World) q,
    isInitialized (this w) = true ->
    queue (this w) = Some q ->
    Bull.connected (redis w) = true ->
    exists jobs w',
      addJobs calls w = (Return jobs, w')
      /\ map order_of jobs
         = map Some (seqZ (currentOrder (this w)) (Z.of_nat (length calls)))
      /\ map fst (Bull.jobs (redis w')) = map fst (Bull.jobs (redis w)) ++ jobs
      /\ currentOrder (this w')
         = currentOrder (this w) + Z.of_nat (length calls).
Proof.
  induction calls as [|[[n d] o] rest IH]; intros w q Hi Hq Hc.
  - exists [], w. cbn. rewrite app_nil_r. repeat split; lia.
  - destruct (addJob_accepted n d o w q Hi Hq Hc)
      as (w1 & Heq & Hthis & Hjobs & Hc1 & _).
    destruct (IH w1 q) as (jobs & w' & Hrest & Hord & Hst & Hcur).
    { by rewrite Hthis. } { by rewrite Hthis. } { done. }
    exists (first_job n d o w :: jobs), w'. split.
    { cbn [addJobs]. unfold mbind, M_bind at 1. rewrite Heq.
      unfold mbind, M_bind at 1. rewrite Hrest. reflexivity. }
    rewrite Hthis in Hord, Hcur. cbn in Hord, Hcur.
    split; [|split].
    + cbn [map length]. rewrite seqZ_cons by lia. cbn [map]. f_equal.
      rewrite Hord. do 2 f_equal; lia.
    + rewrite Hst, Hjobs, map_app. cbn. by rewrite <- app_assoc.
    + rewrite Hcur. cbn [length]. lia.
Qed.

(** C3. On a scheduler that was just constructed and initialized, over a
    backend that takes every submission, N calls of [addJob] in a row
    return jobs whose [_order] values are 0, 1, ..., N-1 in call order, and
    the backend stores exactly these jobs after the ones it had. *)
Theorem addJob_orders_are_consecutive
  (qn : string) (r : Bull.Redis) (t : Z)
  (calls : list (string * Payload * JobsOptions)) :
  Bull.connected r = true ->
  exists jobs w',
    addJobs calls
      (snd (initialize {| this := constructor qn; redis := r; clock := t;
                          console := [] |}))
      = (Return jobs, w')
    /\ map order_of jobs = map Some (seqZ 0 (Z.of_nat (length calls)))
    /\ map fst (Bull.jobs (redis w')) = map fst (Bull.jobs r) ++ jobs
    /\ currentOrder (this w') = Z.of_nat (length calls).
Proof.
  intros Hc.
  apply (addJobs_from calls
           (snd (initialize {| this := constructor qn; redis := r; clock := t;
                               console := [] |}))
           {| Bull.q_name := qn; Bull.removeOnComplete := 100;
              Bull.removeOnFail := 50; Bull.q_attempts := 1 |});
    done.
Qed.

Lemma addJob_orders_are_consecutive_witness :
  exists jobs w',
    addJobs three_calls
      (snd (initialize {| this := constructor "demo"; redis := Bull.empty;
                          clock := 0; console := [] |}))
      = (Return jobs, w')
    /\ map order_of jobs = map Some (seqZ 0 (Z.of_nat (length three_calls)))
    /\ map fst (Bull.jobs (redis w')) = map fst (Bull.jobs Bull.empty) ++ jobs
    /\ currentOrder (this w') = Z.of_nat (length three_calls).
Proof.
  apply (addJob_orders_are_consecutive "demo" Bull.empty 0 three_calls).
  reflexivity.
Defined.

Example three_orders :
  map order_of
      (map fst (Bull.jobs (redis (run [Initialize; AddJob "a" ∅ no_options;
                                       AddJob "b" ∅ no_options;
                                       AddJob "a" ∅ no_options]
                                      (new_world "demo")))))
  = [Some 0; Some 1; Some 2].
Proof. reflexivity. Qed.

(** ** Calls on the queue handle, and cleanup *)

Lemma with_queue_Some {A} method
  (f : Bull.Queue -> Bull.Redis -> outcome A * Bull.Redis) (w : World) q :
  queue (this w) = Some q -> with_queue method f w = on_redis (f q) w.
Proof. intros Hq. unfold with_queue. unfold_M. by rewrite Hq. Qed.

Lemma with_queue_None {A} method
  (f : Bull.Queue -> Bull.Redis -> outcome A * Bull.Redis) (w : World) :
  queue (this w) = None ->
  with_queue method f w
  = (Throw (TypeError ("Cannot read properties of null (reading '"
                       +:+ method +:+ "')")), w).
Proof. intros Hq. unfold with_queue. unfold_M. by rewrite Hq. Qed.

Lemma getJobs_connected st (w : World) :
  Bull.connected (redis w) = true ->
  on_redis (Bull.getJobs st) w = (Return (Bull.with_status st (redis w)), w).
Proof. intros Hc. unfold on_redis, Bull.getJobs. by rewrite Hc. Qed.

Lemma getJobs_disconnected st (w : World) :
  Bull.connected (redis w) = false ->
  on_redis (Bull.getJobs st) w = (Throw Bull.connection_closed, w).
Proof. intros Hc. unfold on_redis, Bull.getJobs. by rewrite Hc. Qed.

Lemma forEach_delete_spec (l : list Job) (w : World) :
  forEach (fun job => processingOrder_delete (id job)) l w
  = (Return tt,
     {| this := set_processingOrder (delete_ids l (processingOrder (this w)))
                  (this w);
        redis := redis w; clock := clock w; console := console w |}).
Proof.
  revert w. induction l as [|job l IH]; intros w.
  - reflexivity.
  - cbn [forEach]. unfold mbind, M_bind at 1.
    unfold processingOrder_delete, update_this. rewrite IH. reflexivity.
Qed.

Lemma cleanupOrderedJobs_answered (w : World) q :
  queue (this w) = Some q ->
  Bull.connected (redis w) = true ->
  exists line,
    cleanupOrderedJobs w
    = (Return tt,
       {| this := set_processingOrder
                    (delete_ids (finished (redis w)) (processingOrder (this w)))
                    (this w);
          redis := redis w; clock := clock w;
          console := console w ++ [line] |})
    /\ lvl line = log.
Proof.
  intros Hq Hc. unfold cleanupOrderedJobs, try_catch.
  unfold mbind, M_bind at 1.
  rewrite (with_queue_Some _ _ _ q Hq), (getJobs_connected _ _ Hc).
  unfold mbind, M_bind at 1.
  rewrite (with_queue_Some _ _ _ q Hq), (getJobs_connected _ _ Hc).
  unfold mbind, M_bind at 1. rewrite forEach_delete_spec.
  eexists. split; reflexivity.
Qed.

Lemma cleanupOrderedJobs_unanswered (w : World) :
  queue (this w) = None \/ Bull.connected (redis w) = false ->
  exists e,
    cleanupOrderedJobs w
    = (Return tt, logged error "Failed to cleanup ordered jobs:" (Some e) w).
Proof.
  intros Hrej. unfold cleanupOrderedJobs, try_catch.
  unfold mbind, M_bind at 1.
  destruct (queue (this w)) as [q|] eqn:Hq.
  - destruct Hrej as [?|Hc]; [done|].
    rewrite (with_queue_Some _ _ _ q Hq), (getJobs_disconnected _ _ Hc).
    eexists. reflexivity.
  - rewrite (with_queue_None _ _ _ Hq). eexists. reflexivity.
Qed.

(** [cleanupOrderedJobs] returns normally in every world and leaves the
    backend and the clock as they were. *)
Lemma cleanupOrderedJobs_returns (w : World) :
  fst (cleanupOrderedJobs w) = Return tt
  /\ redis (snd (cleanupOrderedJobs w)) = redis w
  /\ clock (snd (cleanupOrderedJobs w)) = clock w.
Proof.
  destruct (queue (this w)) as [q|] eqn:Hq.
  - destruct (Bull.connected (redis w)) eqn:Hc.
    + destruct (cleanupOrderedJobs_answered w q Hq Hc) as (? & -> & _). done.
    + destruct (cleanupOrderedJobs_unanswered w) as (? & ->); [by right|done].
  - destruct (cleanupOrderedJobs_unanswered w) as (? & ->); [by left|done].
Qed.

Lemma delete_ids_lookup (l : list Job) (m : gmap string (option Z)) (k : string) :
  delete_ids l m !! k = if decide (k ∈ map id l) then None else m !! k.
Proof.
  revert m. induction l as [|job l IH]; intros m.
  - cbn. rewrite decide_False; [done|]. apply not_elem_of_nil.
  - change (delete_ids (job :: l) m) with (delete_ids l (delete (id job) m)).
    rewrite IH. cbn [map]. destruct (decide (k ∈ map id l)) as [Hin|Hout].
    + rewrite decide_True; [done|]. by apply elem_of_cons; right.
    + destruct (decide (k = id job)) as [->|Hne].
      * rewrite decide_True by (apply elem_of_cons; by left).
        apply lookup_delete_eq.
      * rewrite decide_False.
        -- by apply lookup_delete_ne.
        -- intros [?|?]%elem_of_cons; done.
Qed.

Lemma delete_ids_idempotent (l : list Job) (m : gmap string (option Z)) :
  delete_ids l (delete_ids l m) = delete_ids l m.
Proof.
  apply map_eq. intros k. rewrite !delete_ids_lookup.
  by destruct (decide (k ∈ map id l)).
Qed.

Lemma elem_of_with_status (job : Job) st (r : Bull.Redis) :
  job ∈ Bull.with_status st r <-> (job, st) ∈ Bull.jobs r.
Proof.
  unfold Bull.with_status. rewrite list_elem_of_fmap. split.
  - intros ([j s] & -> & Hin). apply list_elem_of_filter in Hin as [Hs Hin].
    cbn in *. by destruct s, st.
  - intros Hin. exists (job, st). split; [done|].
    apply list_elem_of_filter. split; [by destruct st | done].
Qed.

Lemma elem_of_finished (k : string) (r : Bull.Redis) :
  k ∈ map id (finished r)
  <-> exists job st, (job, st) ∈ Bull.jobs r /\ id job = k
                     /\ (st = Bull.completed \/ st = Bull.failed).
Proof.
  unfold finished. rewrite list_elem_of_fmap. split.
  - intros (job & -> & Hin). apply elem_of_app in Hin as [Hin|Hin];
      apply elem_of_with_status in Hin; eauto 10.
  - intros (job & st & Hin & <- & [->| ->]); exists job; (split; [done|]);
      apply elem_of_app; [left|right]; by apply elem_of_with_status.
Qed.

(** C8 fails as stated.  The Order Index is keyed by job id, one entry per
    attempt.  After the first attempt of a lineage has failed and its retry
    is pending (delayed), the lineage is neither completed nor failed, yet
    [cleanupOrderedJobs] removes the entry of the failed attempt; the
    entry of the retry stays. *)
Lemma cleanup_removes_entry_of_live_lineage :
  map (fun p => (id (fst p), order_of (fst p), snd p))
      (jobs_of (step (Deliver 0) failing_world))
  = [("1", Some 0, Bull.failed); ("retry_1_0", Some 0, Bull.delayed)]
  /\ processingOrder (this (step (Deliver 0) failing_world)) !! "1"
     = Some (Some 0)
  /\ processingOrder (this (step (Deliver 0) failing_world)) !! "retry_1_0"
     = Some (Some 0)
  /\ fst (cleanupOrderedJobs (step (Deliver 0) failing_world)) = Return tt
  /\ processingOrder
       (this (run [Deliver 0; CleanupOrderedJobs] failing_world)) !! "1"
     = None
  /\ processingOrder
       (this (run [Deliver 0; CleanupOrderedJobs] failing_world)) !! "retry_1_0"
     = Some (Some 0).
Proof. repeat split; vm_compute; reflexivity. Qed.

(** C8, amended. When the backend answers, [cleanupOrderedJobs] deletes
    from the Order Index the entry of every job, that is of every attempt,
    that the backend lists as completed or failed, whatever the state of
    its lineage; it keeps every other entry as it was, changes nothing
    else in the scheduler and nothing in the backend; a second call
    returns as well and removes nothing more. *)
Theorem cleanupOrderedJobs_removes_finished (w : World) (q : Bull.Queue) :
  queue (this w) = Some q ->
  Bull.connected (redis w) = true ->
  exists w1 w2,
    cleanupOrderedJobs w = (Return tt, w1)
    /\ cleanupOrderedJobs w1 = (Return tt, w2)
    /\ (forall job st, (job, st) ∈ Bull.jobs (redis w) ->
          st = Bull.completed \/ st = Bull.failed ->
          processingOrder (this w1) !! id job = None)
    /\ (forall k,
          (forall job st, (job, st) ∈ Bull.jobs (redis w) -> id job = k ->
             st <> Bull.completed /\ st <> Bull.failed) ->
          processingOrder (this w1) !! k = processingOrder (this w) !! k)
    /\ this w1 = set_processingOrder (processingOrder (this w1)) (this w)
    /\ redis w1 = redis w
    /\ processingOrder (this w2) = processingOrder (this w1)
    /\ redis w2 = redis w.
Proof.
  intros Hq Hc.
  destruct (cleanupOrderedJobs_answered w q Hq Hc) as (l1 & Heq1 & _).
  match type of Heq1 with _ = (_, ?w1) => set (w1' := w1) in * end.
  destruct (cleanupOrderedJobs_answered w1' q Hq Hc) as (l2 & Heq2 & _).
  eexists _, _. split; [exact Heq1|]. split; [exact Heq2|]. cbn.
  repeat split.
  - intros job st Hin Hst. rewrite delete_ids_lookup, decide_True; [done|].
    apply elem_of_finished. eauto.
  - intros k Hk. rewrite delete_ids_lookup, decide_False; [done|].
    intros (job & st & Hin & Hid & Hst)%elem_of_finished.
    destruct (Hk job st Hin Hid). by destruct Hst.
  - apply delete_ids_idempotent.
Qed.

Example mixed_world_jobs :
  map (fun p => (id (fst p), snd p)) (Bull.jobs (redis mixed_world))
  = [("1", Bull.completed); ("2", Bull.failed); ("3", Bull.waiting)]
  /\ map_to_list (processingOrder (this (step CleanupOrderedJobs mixed_world)))
     = [("3", Some 2)].
Proof. split; reflexivity. Qed.

Lemma cleanupOrderedJobs_removes_finished_witness :
  exists w1 w2,
    cleanupOrderedJobs mixed_world = (Return tt, w1)
    /\ cleanupOrderedJobs w1 = (Return tt, w2)
    /\ (forall job st, (job, st) ∈ Bull.jobs (redis mixed_world) ->
          st = Bull.completed \/ st = Bull.failed ->
          processingOrder (this w1) !! id job = None)
    /\ (forall k,
          (forall job st, (job, st) ∈ Bull.jobs (redis mixed_world) ->
             id job = k -> st <> Bull.completed /\ st <> Bull.failed) ->
          processingOrder (this w1) !! k = processingOrder (this mixed_world) !! k)
    /\ this w1 = set_processingOrder (processingOrder (this w1)) (this mixed_world)
    /\ redis w1 = redis mixed_world
    /\ processingOrder (this w2) = processingOrder (this w1)
    /\ redis w2 = redis mixed_world.
Proof.
  apply (cleanupOrderedJobs_removes_finished mixed_world
           {| Bull.q_name := "demo"; Bull.removeOnComplete := 100;
              Bull.removeOnFail := 50; Bull.q_attempts := 1 |});
    reflexivity.
Defined.

(** ** Sorting by order *)

Section Sorting.

Context {A : Type} (key : A -> Z) (compare : A -> A -> Z).
Hypothesis compare_key : forall a b, compare a b = key a - key b.

Lemma sort_insert_perm (x : A) (l : list A) :
  Permutation (sort_insert compare x l) (x :: l).
Proof.
  induction l as [|y l IH]; cbn; [done|].
  destruct (compare x y <=? 0); [done|].
  rewrite IH. apply perm_swap.
Qed.

Lemma sort_insert_sorted (x : A) (l : list A) :
  StronglySorted (ascending key) l ->
  StronglySorted (ascending key) (sort_insert compare x l).
Proof.
  induction 1 as [|y l Hl IH Hy]; cbn.
  - repeat constructor.
  - destruct (Z.leb_spec (compare x y) 0) as [Hle|Hgt];
      rewrite compare_key in *.
    + constructor; [by constructor|].
      constructor; [unfold ascending; lia|].
      eapply Forall_impl; [exact Hy|]. unfold ascending. intros; lia.
    + constructor; [done|].
      rewrite (sort_insert_perm x l). constructor; [|done].
      unfold ascending. lia.
Qed.

Lemma Array_sort_sorted (l : list A) :
  StronglySorted (ascending key) (Array_sort compare l).
Proof.
  induction l as [|x l IH]; cbn; [constructor|].
  by apply sort_insert_sorted.
Qed.

Lemma Array_sort_perm (l : list A) : Permutation (Array_sort compare l) l.
Proof.
  induction l as [|x l IH]; cbn; [done|].
  by rewrite sort_insert_perm, IH.
Qed.


End Sorting.

(** ** The Stats Projector *)

Lemma by_order_key (a b : OrderedJob) : by_order a b = order a - order b.
Proof. reflexivity. Qed.

Lemma getOrderedJobCounts_not_initialized (w : World) :
  isInitialized (this w) = false ->
  getOrderedJobCounts w = (Throw not_initialized, w).
Proof. intros Hi. unfold getOrderedJobCounts. unfold_M. by rewrite Hi. Qed.

Lemma getOrderedJobCounts_answered (w : World) q :
  isInitialized (this w) = true ->
  queue (this w) = Some q ->
  Bull.connected (redis w) = true ->
  exists counts,
    getOrderedJobCounts w
    = (Return {| jobCounts := counts;
                 orderedWaiting := sorted_waiting (redis w);
                 orderedDelayed := sorted_delayed (redis w);
                 totalOrder := currentOrder (this w);
                 oc_maxRetries := maxRetries (this w);
                 oc_retryDelay := retryDelay (this w) |}, w).
Proof.
  intros Hi Hq Hc. unfold getOrderedJobCounts.
  unfold mbind at 1, M_bind at 1, get_this at 1. rewrite Hi. cbn [negb].
  unfold try_catch. unfold mbind, M_bind at 1.
  rewrite (with_queue_Some _ _ _ q Hq).
  unfold on_redis at 1, Bull.getJobCounts. rewrite Hc.
  unfold mbind, M_bind at 1.
  rewrite (with_queue_Some _ _ _ q Hq), (getJobs_connected _ _ Hc).
  unfold mbind, M_bind at 1.
  rewrite (with_queue_Some _ _ _ q Hq), (getJobs_connected _ _ Hc).
  eexists. reflexivity.
Qed.


Lemma getOrderedJobCounts_unanswered (w : World) :
  isInitialized (this w) = true ->
  queue (this w) = None \/ Bull.connected (redis w) = false ->
  exists e w', getOrderedJobCounts w = (Throw e, w').
Proof.
  intros Hi Hrej. unfold getOrderedJobCounts.
  unfold mbind at 1, M_bind at 1, get_this at 1. rewrite Hi. cbn [negb].
  unfold try_catch. unfold mbind, M_bind at 1.
  destruct (queue (this w)) as [q|] eqn:Hq.
  - destruct Hrej as [?|Hc]; [done|].
    rewrite (with_queue_Some _ _ _ q Hq).
    unfold on_redis at 1, Bull.getJobCounts. rewrite Hc.
    eexists _, _. reflexivity.
  - rewrite (with_queue_None _ _ _ Hq). eexists _, _. reflexivity.
Qed.


Example shuffled_world_waiting :
  map order_of (Bull.with_status Bull.waiting (redis shuffled_world))
    = [Some 2; Some 0; Some 1]
  /\ map order (sorted_waiting (redis shuffled_world)) = [0; 1; 2].
Proof. split; reflexivity. Qed.


(** ** Calls before [initialize] *)

(** C6 fails as stated: on a scheduler that was constructed and never
    initialized, [registerProcessor], [setRetryConfig] and
    [cleanupOrderedJobs] return normally. *)
Lemma unguarded_methods_return :
  isInitialized (this (new_world "demo")) = false
  /\ fst (registerProcessor "task" throwing (new_world "demo")) = Return tt
  /\ fst (setRetryConfig 5 30000 (new_world "demo")) = Return tt
  /\ fst (cleanupOrderedJobs (new_world "demo")) = Return tt.
Proof. repeat split. Qed.

(** C6, amended. Before [initialize], the methods that carry the guard
    ([addJob], [start], [pause], [resume], [getOrderedJobCounts], [getJob],
    [getJobs]) throw the not-initialized error to the caller and change
    nothing.  [registerProcessor] and [setRetryConfig] have no guard: they
    return and record the processor and the configuration.
    [cleanupOrderedJobs] and [close] return as well. *)
Theorem guarded_methods_before_initialize (w : World) :
  isInitialized (this w) = false ->
  (forall n d o, addJob n d o w = (Throw not_initialized, w))
  /\ start w = (Throw not_initialized, w)
  /\ pause w = (Throw not_initialized, w)
  /\ resume w = (Throw not_initialized, w)
  /\ getOrderedJobCounts w = (Throw not_initialized, w)
  /\ (forall i, getJob i w = (Throw not_initialized, w))
  /\ (forall st a b, getJobs st a b w = (Throw not_initialized, w))
  /\ (forall n p,
        fst (registerProcessor n p w) = Return tt
        /\ processors (this (snd (registerProcessor n p w)))
           = <[n := p]> (processors (this w)))
  /\ (forall m d,
        fst (setRetryConfig m d w) = Return tt
        /\ maxRetries (this (snd (setRetryConfig m d w))) = m
        /\ retryDelay (this (snd (setRetryConfig m d w))) = d)
  /\ fst (cleanupOrderedJobs w) = Return tt
  /\ fst (close w) = Return tt.
Proof.
  intros Hi.
  split; [intros; by apply addJob_not_initialized|].
  split; [unfold start; unfold_M; by rewrite Hi|].
  split; [unfold pause; unfold_M; by rewrite Hi|].
  split; [unfold resume; unfold_M; by rewrite Hi|].
  split; [by apply getOrderedJobCounts_not_initialized|].
  split; [intros; unfold getJob; unfold_M; by rewrite Hi|].
  split; [intros; unfold getJobs; unfold_M; by rewrite Hi|].
  split; [done|]. split; [done|].
  split; [apply cleanupOrderedJobs_returns|].
  unfold close, QueueScheduler_close. unfold_M. cbn.
  by destruct (worker (this w)), (scheduler (this w)), (queue (this w)).
Qed.

Lemma guarded_methods_before_initialize_witness :
  (forall n d o, addJob n d o (new_world "demo")
                 = (Throw not_initialized, new_world "demo"))
  /\ start (new_world "demo") = (Throw not_initialized, new_world "demo")
  /\ pause (new_world "demo") = (Throw not_initialized, new_world "demo")
  /\ resume (new_world "demo") = (Throw not_initialized, new_world "demo")
  /\ getOrderedJobCounts (new_world "demo")
     = (Throw not_initialized, new_world "demo")
  /\ (forall i, getJob i (new_world "demo")
                = (Throw not_initialized, new_world "demo"))
  /\ (forall st a b, getJobs st a b (new_world "demo")
                     = (Throw not_initialized, new_world "demo"))
  /\ (forall n p,
        fst (registerProcessor n p (new_world "demo")) = Return tt
        /\ processors (this (snd (registerProcessor n p (new_world "demo"))))
           = <[n := p]> (processors (this (new_world "demo"))))
  /\ (forall m d,
        fst (setRetryConfig m d (new_world "demo")) = Return tt
        /\ maxRetries (this (snd (setRetryConfig m d (new_world "demo")))) = m
        /\ retryDelay (this (snd (setRetryConfig m d (new_world "demo")))) = d)
  /\ fst (cleanupOrderedJobs (new_world "demo")) = Return tt
  /\ fst (close (new_world "demo")) = Return tt.
Proof.
  apply (guarded_methods_before_initialize (new_world "demo")). reflexivity.
Defined.

(** ** Changing the retry configuration *)

(** C4 fails as stated: a lineage submitted while [retryDelay] was 60000
    fails after [setRetryConfig(3, 5000)], and its retry is scheduled with
    a delay of 5000. *)
Lemma retry_uses_the_current_delay :
  retryDelay (this demo_world) = 60000
  /\ map (fun p => (order_of (fst p), delay (fst p)))
         (Bull.jobs (redis (run [SetRetryConfig 3 5000; Deliver 0] demo_world)))
     = [(Some 0, 0); (Some 0, 5000)].
Proof. split; reflexivity. Qed.

(** C4, amended. After [setRetryConfig m' d'], a failed job that carries a
    captured budget [m <> 0] is still judged against [m], and its retry
    carries [m] again; the retry is scheduled with the delay [d'] that is
    configured when the failure is handled; and a job submitted after the
    call captures [m']. *)
Theorem setRetryConfig_reaches_later_lineages
  (w : World) (q : Bull.Queue) (job : Job) (err : exn) (m m' d' : Z) :
  _maxRetries (data job) = Some m ->
  m <> 0 ->
  isInitialized (this w) = true ->
  queue (this w) = Some q ->
  Bull.connected (redis w) = true ->
  exists w',
    setRetryConfig m' d' w = (Return tt, w')
    /\ redis w' = redis w
    /\ budget job w' = m
    /\ (m <= _retryCount (data job) ||? 0 ->
        redis (snd (handleJobFailure job err w')) = redis w)
    /\ (_retryCount (data job) ||? 0 < m ->
        exists retryJob st,
          Bull.jobs (redis (snd (handleJobFailure job err w')))
            = Bull.jobs (redis w) ++ [(retryJob, st)]
          /\ _order (data retryJob) = _order (data job)
          /\ _maxRetries (data retryJob) = Some m
          /\ delay retryJob = d')
    /\ (forall n d o, exists job' w'',
          addJob n d o w' = (Return job', w'')
          /\ _maxRetries (data job') = Some m').
Proof.
  intros Hm Hm0 Hi Hq Hc. eexists. split; [reflexivity|]. cbn.
  split; [done|].
  assert (Hb : forall w0, budget job w0 = m).
  { intros w0. unfold budget. rewrite Hm. by apply or_default_Some_nonzero. }
  split; [apply Hb|]. split; [|split].
  - intros Hge.
    edestruct handleJobFailure_exhausted as (? & -> & _); [|done].
    by rewrite Hb.
  - intros Hlt.
    edestruct handleJobFailure_retry as (? & ? & -> & _);
      [by rewrite Hb | exact Hq | exact Hc |].
    rewrite Hb. eexists _, _. split; [reflexivity|]. done.
  - intros n d o.
    edestruct (addJob_accepted n d o) as (w'' & -> & _);
      [exact Hi | exact Hq | exact Hc |].
    eexists _, _. split; [reflexivity|]. done.
Qed.

Lemma setRetryConfig_reaches_later_lineages_witness :
  exists w',
    setRetryConfig 5 5000 demo_world = (Return tt, w')
    /\ redis w' = redis demo_world
    /\ budget demo_job w' = 3
    /\ (3 <= _retryCount (data demo_job) ||? 0 ->
        redis (snd (handleJobFailure demo_job (Error "boom") w'))
        = redis demo_world)
    /\ (_retryCount (data demo_job) ||? 0 < 3 ->
        exists retryJob st,
          Bull.jobs (redis (snd (handleJobFailure demo_job (Error "boom") w')))
            = Bull.jobs (redis demo_world) ++ [(retryJob, st)]
          /\ _order (data retryJob) = _order (data demo_job)
          /\ _maxRetries (data retryJob) = Some 3
          /\ delay retryJob = 5000)
    /\ (forall n d o, exists job' w'',
          addJob n d o w' = (Return job', w'')
          /\ _maxRetries (data job') = Some 5).
Proof.
  apply (setRetryConfig_reaches_later_lineages demo_world
           {| Bull.q_name := "demo"; Bull.removeOnComplete := 100;
              Bull.removeOnFail := 50; Bull.q_attempts := 1 |}
           demo_job (Error "boom") 3 5 5000);
    [reflexivity | lia | reflexivity | reflexivity | reflexivity].
Defined.

(** ** Deliveries *)

Lemma move_jobs (i : nat) st (r : Bull.Redis) (job : Job) st0 :
  Bull.jobs r !! i = Some (job, st0) ->
  Bull.jobs (Bull.move i st r) = <[i := (job, st)]> (Bull.jobs r).
Proof.
  intros Hi. cbn. rewrite list_insert_alter.
  apply list_alter_ext; [|done]. intros x Hx. rewrite Hi in Hx.
  by injection Hx as <-.
Qed.

Lemma ready_Some (r : Bull.Redis) (i : nat) (job : Job) :
  ready r i = Some job ->
  Bull.paused r = false /\ Bull.jobs r !! i = Some (job, Bull.waiting).
Proof.
  unfold ready. destruct (Bull.paused r); [done|].
  destruct (Bull.jobs r !! i) as [[j []]|]; try done. by intros [= ->].
Qed.

Lemma deliver_idle (i : nat) (w : World) :
  delivering w = false \/ ready (redis w) i = None ->
  deliver i w = (Return tt, w).
Proof.
  unfold deliver. intros [-> | ->]; [done|]. by destruct (delivering w).
Qed.

Lemma deliver_completed (i : nat) (w : World) (job : Job) :
  delivering w = true ->
  ready (redis w) i = Some job ->
  handler_error job w = None ->
  exists w',
    deliver i w = (Return tt, w')
    /\ this w' = this w /\ clock w' = clock w
    /\ redis w' = Bull.move i Bull.completed (Bull.move i Bull.active (redis w)).
Proof.
  intros Hw Hr He. unfold deliver. rewrite Hw, Hr.
  destruct (worker_callback_succeeds job (taken i w)) as (v & w1 & Heq & Ht & Hre & Hcl);
    [done|].
  rewrite Heq. eexists. split; [reflexivity|]. cbn.
  rewrite Ht, Hre, Hcl. done.
Qed.

Lemma deliver_failed (i : nat) (w : World) (job : Job) (e : exn) :
  delivering w = true ->
  ready (redis w) i = Some job ->
  handler_error job w = Some e ->
  exists w',
    deliver i w = (Return tt, w')
    /\ this w' = this (snd (handleJobFailure job e (at_failure e (taken i w))))
    /\ clock w' = clock (snd (handleJobFailure job e (at_failure e (taken i w))))
    /\ redis w'
       = Bull.move i Bull.failed
           (redis (snd (handleJobFailure job e (at_failure e (taken i w))))).
Proof.
  intros Hw Hr He. unfold deliver. rewrite Hw, Hr.
  rewrite (worker_callback_fails job (taken i w) e He).
  eexists. split; [reflexivity|]. done.
Qed.

Lemma move_after_take (i : nat) (r r1 : Bull.Redis) (job : Job) st0 st
  (extra : list (Job * Bull.status)) :
  Bull.jobs r !! i = Some (job, st0) ->
  Bull.jobs r1 = Bull.jobs (Bull.move i Bull.active r) ++ extra ->
  Bull.jobs (Bull.move i st r1) = <[i := (job, st)]> (Bull.jobs r) ++ extra.
Proof.
  intros Hi H1. cbn in *. rewrite H1.
  rewrite alter_app_l by (rewrite length_alter; by eapply lookup_lt_Some).
  f_equal. rewrite list_alter_alter_eq, list_insert_alter.
  apply list_alter_ext; [|done]. intros x Hx. rewrite Hi in Hx.
  by injection Hx as <-.
Qed.

(** The stored jobs after a delivery whose handler failed: the attempt is
    recorded as failed, and a retry follows it when [handleJobFailure]
    submitted one. *)
Lemma deliver_failed_jobs (i : nat) (w : World) (job : Job) (e : exn) :
  delivering w = true ->
  ready (redis w) i = Some job ->
  handler_error job w = Some e ->
  currentOrder (this (snd (deliver i w))) = currentOrder (this w)
  /\ ((Bull.jobs (redis (snd (deliver i w)))
         = <[i := (job, Bull.failed)]> (Bull.jobs (redis w))
       /\ processingOrder (this (snd (deliver i w))) = processingOrder (this w)
       /\ (budget job w <= _retryCount (data job) ||? 0
           \/ queue (this w) = None \/ Bull.connected (redis w) = false))
      \/ (Bull.jobs (redis (snd (deliver i w)))
            = <[i := (job, Bull.failed)]> (Bull.jobs (redis w))
                ++ [(retry_job job (budget job w) w, retry_status w)]
          /\ _retryCount (data job) ||? 0 < budget job w
          /\ is_Some (queue (this w))
          /\ Bull.connected (redis w) = true)).
Proof.
  intros Hw Hr He.
  destruct (deliver_failed i w job e Hw Hr He) as (w' & -> & Hthis & _ & Hredis).
  cbn [snd]. rewrite Hthis, Hredis. clear Hthis Hredis w'.
  apply ready_Some in Hr as [_ Hi].
  set (w0 := at_failure e (taken i w)).
  assert (Hb : budget job w0 = budget job w) by done.
  pose proof (handleJobFailure_frame job e w0) as (Hco & _).
  split; [exact Hco|].
  destruct (Z_lt_le_dec (_retryCount (data job) ||? 0) (budget job w0)) as [Hlt|Hge].
  - destruct (queue (this w0)) as [q|] eqn:Hq.
    + destruct (Bull.connected (redis w0)) eqn:Hc.
      * right. split; [|by rewrite <- Hb].
        destruct (handleJobFailure_retry job e w0 q Hlt Hq Hc)
          as (? & ? & -> & _).
        cbn [snd redis set_redis].
        by apply (move_after_take i (redis w) _ job Bull.waiting).
      * left. split; [|split; [|by right; right]].
        -- destruct (handleJobFailure_rejected job e w0 q Hlt Hq Hc) as (? & -> & _).
           cbn [snd redis set_redis].
           rewrite <- (app_nil_r (<[i:=_]> _)).
           apply (move_after_take i (redis w) _ job Bull.waiting); [done|].
           by rewrite app_nil_r.
        -- by destruct (handleJobFailure_rejected job e w0 q Hlt Hq Hc) as (? & -> & _).
    + left. split; [|split; [|by right; left]].
      * destruct (handleJobFailure_no_queue job e w0 Hlt Hq) as (? & ? & -> & _).
        cbn [snd redis set_redis].
        rewrite <- (app_nil_r (<[i:=_]> _)).
        apply (move_after_take i (redis w) _ job Bull.waiting); [done|].
        by rewrite app_nil_r.
      * by destruct (handleJobFailure_no_queue job e w0 Hlt Hq) as (? & ? & -> & _).
  - left. split; [|split; [|left; by rewrite <- Hb]].
    + destruct (handleJobFailure_exhausted job e w0 Hge) as (? & -> & _).
      cbn [snd redis set_redis].
      rewrite <- (app_nil_r (<[i:=_]> _)).
      apply (move_after_take i (redis w) _ job Bull.waiting); [done|].
      by rewrite app_nil_r.
    + by destruct (handleJobFailure_exhausted job e w0 Hge) as (? & -> & _).
Qed.

(** ** What one step does to the stored jobs and to the counter *)

Lemma addJob_effect n d o (w : World) : effect w (snd (addJob n d o w)).
Proof.
  destruct (isInitialized (this w)) eqn:Hi.
  - destruct (queue (this w)) as [q|] eqn:Hq.
    + destruct (Bull.connected (redis w)) eqn:Hc.
      * destruct (addJob_accepted n d o w q Hi Hq Hc)
          as (w' & -> & Hthis & Hjobs & _).
        eapply effect_submitted; [exact Hjobs|done|done|by eexists|].
        unfold counter_of. cbn. by rewrite Hthis.
      * destruct (addJob_rejected n d o w Hi) as (e & w' & -> & Hthis & Hr & _);
          [by right|].
        apply effect_none; unfold jobs_of, counter_of; cbn.
        -- by rewrite Hr.
        -- rewrite Hthis. cbn. lia.
    + destruct (addJob_rejected n d o w Hi) as (e & w' & -> & Hthis & Hr & _);
        [by left|].
      apply effect_none; unfold jobs_of, counter_of; cbn.
      * by rewrite Hr.
      * rewrite Hthis. cbn. lia.
  - rewrite (addJob_not_initialized n d o w Hi). by apply effect_none.
Qed.

Lemma deliver_effect (i : nat) (w : World) : effect w (snd (deliver i w)).
Proof.
  destruct (delivering w) eqn:Hw.
  2: { rewrite deliver_idle by (by left). by apply effect_none. }
  destruct (ready (redis w) i) as [job|] eqn:Hr.
  2: { rewrite deliver_idle by (by right). by apply effect_none. }
  pose proof (ready_Some _ _ _ Hr) as [_ Hi].
  destruct (handler_error job w) as [e|] eqn:He.
  - destruct (deliver_failed_jobs i w job e Hw Hr He)
      as (Hco & [[Hjobs _]|[Hjobs [Hlt _]]]).
    + eapply (effect_moved _ _ i job Bull.waiting Bull.failed); done.
    + eapply (effect_retried _ _ i job _ _ (maxRetries (this w))); try done.
  - destruct (deliver_completed i w job Hw Hr He)
      as (w' & -> & Hthis & _ & Hredis).
    eapply (effect_moved _ _ i job Bull.waiting Bull.completed); try done.
    + unfold jobs_of. cbn [snd]. rewrite Hredis.
      rewrite <- (app_nil_r (<[i:=_]> _)).
      apply (move_after_take i (redis w) _ job Bull.waiting); [done|].
      by rewrite app_nil_r.
    + unfold counter_of. cbn [snd]. by rewrite Hthis.
Qed.

Lemma promote_effect (i : nat) (w : World) : effect w (snd (promote i w)).
Proof.
  unfold promote.
  destruct (Bull.jobs (redis w) !! i) as [[job st]|] eqn:Hi;
    [|by apply effect_none].
  destruct st; try by apply effect_none.
  eapply (effect_moved _ _ i job Bull.delayed Bull.waiting); try done.
  apply (move_jobs i Bull.waiting (redis w) job _ Hi).
Qed.

Lemma cleanupOrderedJobs_effect (w : World) :
  effect w (snd (cleanupOrderedJobs w)).
Proof.
  apply effect_none.
  - unfold jobs_of. by destruct (cleanupOrderedJobs_returns w) as (_ & -> & _).
  - unfold counter_of. destruct (queue (this w)) as [q|] eqn:Hq.
    + destruct (Bull.connected (redis w)) eqn:Hc.
      * by destruct (cleanupOrderedJobs_answered w q Hq Hc) as (? & -> & _).
      * destruct (cleanupOrderedJobs_unanswered w) as (? & ->); [by right|done].
    + destruct (cleanupOrderedJobs_unanswered w) as (? & ->); [by left|done].
Qed.

Lemma getOrderedJobCounts_effect (w : World) :
  effect w (snd (getOrderedJobCounts w)).
Proof.
  apply effect_none; unfold jobs_of, counter_of, getOrderedJobCounts;
    unfold_M; unfold Bull.getJobCounts, Bull.getJobs; cbn;
    repeat (case_match; simplify_eq; cbn); done.
Qed.

Lemma step_effect (ev : event) (w : World) : effect w (step ev w).
Proof.
  destruct ev; cbn [step]; unfold ignore.
  - by apply effect_none.
  - by apply effect_none.
  - apply addJob_effect.
  - apply effect_none; unfold jobs_of, counter_of, start; unfold_M; cbn;
      by destruct (isInitialized (this w)).
  - by apply effect_none.
  - apply getOrderedJobCounts_effect.
  - apply cleanupOrderedJobs_effect.
  - apply effect_none; unfold jobs_of, counter_of, pause; unfold_M;
      unfold Bull.set_paused; cbn; repeat (case_match; simplify_eq; cbn); done.
  - apply effect_none; unfold jobs_of, counter_of, resume; unfold_M;
      unfold Bull.set_paused; cbn; repeat (case_match; simplify_eq; cbn); done.
  - apply effect_none; unfold jobs_of, counter_of, close, QueueScheduler_close;
      unfold_M; cbn;
      by destruct (worker (this w)), (scheduler (this w)), (queue (this w)).
  - apply deliver_effect.
  - apply promote_effect.
  - by apply effect_none.
  - by apply effect_none.
Qed.

(** ** Lineages *)

Lemma well_formed_mono (c c' : Z) (job : Job) :
  c <= c' -> well_formed c job -> well_formed c' job.
Proof.
  intros Hc (o & k & m & Ho & Hoc & Hrest).
  exists o, k, m. split; [done|]. split; [lia|done].
Qed.

Lemma lookup_restatus (l : list (Job * Bull.status)) (i j : nat)
  (job jb : Job) (st0 st' sb : Bull.status) :
  l !! i = Some (job, st0) ->
  <[i := (job, st')]> l !! j = Some (jb, sb) ->
  exists sb0,
    l !! j = Some (jb, sb0)
    /\ (j <> i -> sb0 = sb)
    /\ (j = i -> sb = st' /\ sb0 = st0).
Proof.
  intros Hi Hj. apply list_lookup_insert_Some in Hj as [(-> & [= <- <-] & _)|[Hne Hj]].
  - exists st0. done.
  - exists sb. split; [done|]. split; [done|]. intros ->. done.
Qed.

Lemma invariant_new (qn : string) : invariant (new_world qn).
Proof.
  split.
  - done.
  - intros i job st Hi. by destruct i.
  - intros a b ja sa jb sb _ Ha. by destruct a.
Qed.

Lemma invariant_effect (w w' : World) :
  invariant w -> effect w w' -> invariant w'.
Proof.
  intros [Hc Hwf Hch] [Hj Hle|job st Hj Ho Hk Hm Hc'
                      |i job st st' Hi Hnc Hnf Hj Hc'
                      |i job retry st m Hi Hj Ho Hk Hm Hlt Hc' _ _ _].
  - split; [lia| |by rewrite Hj].
    intros i job st. rewrite Hj. intros Hi.
    eapply well_formed_mono; [exact Hle|]. by eapply Hwf.
  - split; [lia| |].
    + intros i jb sb. rewrite Hj, Hc'.
      intros [[_ Hold]|[_ [= <- <-]]]%lookup_snoc_Some.
      * eapply well_formed_mono; [|by eapply Hwf]. lia.
      * destruct Hm as [m Hm]. exists (counter_of w), 0, m.
        repeat split; try done; lia.
    + intros a b ja sa jb sb Hab. rewrite Hj.
      intros [[_ Ha]|[-> _]]%lookup_snoc_Some; intros [[_ Hb]|[-> [= <- <-]]]%lookup_snoc_Some.
      * by eapply Hch.
      * destruct (Hwf a ja sa Ha) as (o & ? & ? & Hoa & Hlt & _).
        rewrite Hoa, Ho. intros [= ->]. lia.
      * apply lookup_lt_Some in Hb. lia.
      * lia.
  - split; [lia| |].
    + intros j jb sb. rewrite Hj, Hc'. intros Hjb.
      destruct (lookup_restatus _ _ _ _ _ _ _ _ Hi Hjb) as (sb0 & Hold & _).
      by eapply Hwf.
    + intros a b ja sa jb sb Hab. rewrite Hj. intros Ha Hb Hsame.
      destruct (lookup_restatus _ _ _ _ _ _ _ _ Hi Ha) as (sa0 & Ha0 & Hane & Haeq).
      destruct (lookup_restatus _ _ _ _ _ _ _ _ Hi Hb) as (sb0 & Hb0 & _).
      destruct (Hch a b ja sa0 jb sb0 Hab Ha0 Hb0 Hsame) as (Hf & Hrest).
      split; [|done]. destruct (decide (a = i)) as [->|Hne].
      * destruct (Haeq eq_refl) as [_ ->]. done.
      * by rewrite <- (Hane Hne).
  - assert (Hjob : well_formed (counter_of w) job) by (by eapply Hwf).
    destruct Hjob as (o & k & mj & Hoj & Hoc & Hkj & Hk0 & Hmj & Hkm).
    assert (Hcount : count_of job = k).
    { unfold count_of. rewrite Hkj. apply or_default_zero. }
    fold (count_of job) in Hk, Hlt. rewrite Hcount in Hk, Hlt.
    assert (Hcr : count_of retry = k + 1).
    { unfold count_of. rewrite Hk. apply or_default_zero. }
    split; [lia| |].
    + intros j jb sb. rewrite Hj, Hc'.
      intros [[_ Hold]|[_ [= <- <-]]]%lookup_snoc_Some.
      * destruct (lookup_restatus _ _ _ _ _ _ _ _ Hi Hold) as (sb0 & Hold0 & _).
        by eapply Hwf.
      * exists o, (k + 1), (_maxRetries (data job) ||? m).
        rewrite Ho. repeat split; try done; lia.
    + intros a b ja sa jb sb Hab. rewrite Hj.
      intros [[_ Ha]|[-> _]]%lookup_snoc_Some;
        intros [[_ Hb]|[-> [= <- <-]]]%lookup_snoc_Some.
      * intros Hsame.
        destruct (lookup_restatus _ _ _ _ _ _ _ _ Hi Ha) as (sa0 & Ha0 & Hane & Haeq).
        destruct (lookup_restatus _ _ _ _ _ _ _ _ Hi Hb) as (sb0 & Hb0 & _).
        destruct (Hch a b ja sa0 jb sb0 Hab Ha0 Hb0 Hsame) as (Hf & Hrest).
        split; [|done]. destruct (decide (a = i)) as [->|Hne].
        -- by destruct (Haeq eq_refl) as [-> _].
        -- by rewrite <- (Hane Hne).
      * rewrite Ho. intros Hsame.
        destruct (lookup_restatus _ _ _ _ _ _ _ _ Hi Ha) as (sa0 & Ha0 & Hane & Haeq).
        destruct (lt_eq_lt_dec a i) as [[Hlti| ->]|Hgti].
        -- destruct (Hch a i ja sa0 job Bull.waiting Hlti Ha0 Hi Hsame)
             as (Hf & Hcnt & Hbud).
           rewrite <- (Hane ltac:(lia)). split; [done|]. split; [lia|].
           intros mm Hmm Hmm0. rewrite Hm, (Hbud mm Hmm Hmm0).
           by rewrite or_default_Some_nonzero.
        -- destruct (Haeq eq_refl) as [-> _].
           rewrite Ha0 in Hi. injection Hi as -> ->.
           split; [done|]. split; [lia|].
           intros mm Hmm Hmm0. rewrite Hm, Hmm.
           by rewrite or_default_Some_nonzero.
        -- destruct (Hch i a job Bull.waiting ja sa0 Hgti Hi Ha0) as (Hf & _);
             done.
      * apply lookup_lt_Some in Hb. lia.
      * lia.
Qed.

Lemma invariant_step (ev : event) (w : World) :
  invariant w -> invariant (step ev w).
Proof. intros Hinv. eapply invariant_effect; [exact Hinv|apply step_effect]. Qed.

Lemma invariant_run (evs : list event) (w : World) :
  invariant w -> invariant (run evs w).
Proof.
  revert w. induction evs as [|ev evs IH]; intros w Hinv; [done|].
  cbn. apply IH. by apply invariant_step.
Qed.

Lemma chained_tail (p : Job * Bull.status) (l : list (Job * Bull.status)) :
  chained (p :: l) -> chained l.
Proof.
  intros Hch a b ja sa jb sb Hab Ha Hb.
  apply (Hch (S a) (S b) ja sa jb sb); [lia|done|done].
Qed.

(** Retry counts that grow along the list and stay in [[lo, hi]] bound the
    number of attempts. *)
Lemma attempts_bounded (o : option Z) (l : list (Job * Bull.status)) :
  forall lo hi,
    chained l ->
    (forall p, p ∈ l -> _order (data (fst p)) = o ->
               lo <= count_of (fst p) <= hi) ->
    attempts o l <= Z.max 0 (hi - lo + 1).
Proof.
  unfold attempts, lineage.
  induction l as [|[jx sx] l IH]; intros lo hi Hch Hin; [cbn; lia|].
  pose proof (chained_tail _ _ Hch) as Hch'.
  destruct (decide (_order (data jx) = o)) as [Hx|Hx].
  - rewrite filter_cons_True by done. cbn [length].
    assert (Hbx : lo <= count_of jx <= hi).
    { apply (Hin (jx, sx)); [apply elem_of_cons; by left | done]. }
    specialize (IH (count_of jx + 1) hi Hch').
    assert (Z.of_nat (length (filter (λ p, _order (data p.1) = o) l))
            <= Z.max 0 (hi - (count_of jx + 1) + 1)); [|lia].
    apply IH. intros [jb sb] Hb Hob.
    apply list_elem_of_lookup in Hb as [b Hb].
    destruct (Hch 0%nat (S b) jx sx jb sb) as (_ & Hlt & _);
      [lia | done | done | cbn in *; congruence |].
    cbn [fst]. split; [lia|].
    apply (Hin (jb, sb)); [|done].
    apply elem_of_cons; right. apply list_elem_of_lookup. eauto.
  - rewrite filter_cons_False by done.
    apply (IH lo hi Hch'). intros p Hp. apply Hin. apply elem_of_cons. by right.
Qed.

(** In a world that satisfies the invariant, a lineage whose first attempt
    captured a budget [m <> 0] has at most [max 0 m + 1] attempts, that is
    at most [max 0 m] resubmissions. *)
Lemma attempts_within_budget (w : World) (i : nat) (job : Job) st (m : Z) :
  invariant w ->
  jobs_of w !! i = Some (job, st) ->
  _retryCount (data job) = Some 0 ->
  _maxRetries (data job) = Some m ->
  m <> 0 ->
  attempts (_order (data job)) (jobs_of w) <= Z.max 0 m + 1.
Proof.
  intros [Hc Hwf Hch] Hi Hk Hm Hm0.
  assert (H0 : count_of job = 0) by (unfold count_of; by rewrite Hk).
  pose proof (attempts_bounded (_order (data job)) (jobs_of w) 0 (Z.max 0 m) Hch)
    as Hb.
  assert (Z.max 0 (Z.max 0 m - 0 + 1) = Z.max 0 m + 1) as <- by lia.
  apply Hb. intros [jb sb] Hin Hsame. cbn [fst] in *.
  apply list_elem_of_lookup in Hin as [b Hb'].
  destruct (Hwf b jb sb Hb') as (o & k & mb & _ & _ & Hkb & Hk0 & Hmb & Hkm).
  assert (Hcb : count_of jb = k).
  { unfold count_of. rewrite Hkb. apply or_default_zero. }
  rewrite Hcb. split; [done|].
  destruct (lt_eq_lt_dec b i) as [[Hlt| ->]|Hgt].
  - destruct (Hch b i jb sb job st Hlt Hb' Hi Hsame) as (_ & Hcnt & _). lia.
  - rewrite Hi in Hb'. injection Hb' as <- <-. lia.
  - destruct (Hch i b job st jb sb Hgt Hi Hb' (eq_sym Hsame)) as (_ & _ & Hbud).
    rewrite (Hbud m Hm Hm0) in Hmb. injection Hmb as <-. lia.
Qed.

Lemma lookup_restatus_fwd (l : list (Job * Bull.status)) (i a : nat)
  (job ja : Job) (st0 st' sa : Bull.status) :
  l !! i = Some (job, st0) ->
  l !! a = Some (ja, sa) ->
  exists sa', <[i := (job, st')]> l !! a = Some (ja, sa').
Proof.
  intros Hi Ha. destruct (decide (a = i)) as [->|Hne].
  - rewrite Hi in Ha. injection Ha as <- <-. exists st'.
    apply list_lookup_insert_eq. by eapply lookup_lt_Some.
  - exists sa. by rewrite list_lookup_insert_ne.
Qed.

Lemma linked_effect (w w' : World) :
  linked (jobs_of w) -> effect w w' -> linked (jobs_of w').
Proof.
  intros Hln [Hj Hle|job st Hj Ho Hk Hm Hc'
             |i job st st' Hi Hnc Hnf Hj Hc'
             |i job retry st m Hi Hj Ho Hk Hm Hlt Hc' Hn Hd Hp].
  - by rewrite Hj.
  - intros b jb sb. rewrite Hj.
    intros [[_ Hb]|[_ [= <- <-]]]%lookup_snoc_Some Hcnt.
    + destruct (Hln b jb sb Hb Hcnt) as (a & ja & sa & Hab & Ha & Hrest).
      exists a, ja, sa. split; [done|]. split; [|done].
      by apply lookup_app_l_Some.
    + unfold count_of in Hcnt. rewrite Hk in Hcnt. by vm_compute in Hcnt.
  - intros b jb sb. rewrite Hj. intros Hb Hcnt.
    destruct (lookup_restatus _ _ _ _ _ _ _ _ Hi Hb) as (sb0 & Hb0 & _).
    destruct (Hln b jb sb0 Hb0 Hcnt) as (a & ja & sa & Hab & Ha & Hrest).
    destruct (lookup_restatus_fwd _ i a job ja st st' sa Hi Ha) as (sa' & Ha').
    exists a, ja, sa'. done.
  - intros b jb sb. rewrite Hj.
    intros [[_ Hb]|[-> [= <- <-]]]%lookup_snoc_Some Hcnt.
    + destruct (lookup_restatus _ _ _ _ _ _ _ _ Hi Hb) as (sb0 & Hb0 & _).
      destruct (Hln b jb sb0 Hb0 Hcnt) as (a & ja & sa & Hab & Ha & Hrest).
      destruct (lookup_restatus_fwd _ i a job ja Bull.waiting Bull.failed sa Hi Ha)
        as (sa' & Ha').
      exists a, ja, sa'. split; [done|]. split; [|done].
      by apply lookup_app_l_Some.
    + exists i, job, Bull.failed.
      pose proof (lookup_lt_Some _ _ _ Hi) as Hlen.
      split; [by rewrite length_insert|]. split.
      { apply lookup_app_l_Some, list_lookup_insert_eq. done. }
      repeat split; try done.
      unfold count_of. rewrite Hk. apply or_default_zero.
Qed.

Lemma linked_run (evs : list event) (w : World) :
  linked (jobs_of w) -> linked (jobs_of (run evs w)).
Proof.
  revert w. induction evs as [|ev evs IH]; intros w Hln; [done|].
  cbn. apply IH. eapply linked_effect; [exact Hln|apply step_effect].
Qed.

(** X2. In a reachable world every stored job descends from a first
    attempt ([_retryCount = 0]) stored before it, with the same name, the
    same order and the same payload; and a retry is within the budget it
    carries. *)
Lemma retry_descends_from_original (qn : string) (evs : list event)
  (b : nat) (jb : Job) (sb : Bull.status) :
  jobs_of (run evs (new_world qn)) !! b = Some (jb, sb) ->
  (exists (a : nat) j0 s0,
     (a <= b)%nat
     /\ jobs_of (run evs (new_world qn)) !! a = Some (j0, s0)
     /\ _retryCount (data j0) = Some 0
     /\ name jb = name j0
     /\ _order (data jb) = _order (data j0)
     /\ _originalData (data jb) = _originalData (data j0))
  /\ exists k m,
       _retryCount (data jb) = Some k /\ _maxRetries (data jb) = Some m
       /\ 0 <= k /\ (1 <= k -> k <= m).
Proof.
  set (w := run evs (new_world qn)).
  assert (Hinv : invariant w) by apply invariant_run, invariant_new.
  assert (Hln : linked (jobs_of w)).
  { apply linked_run. intros ? ? ? Hnil. by destruct b0. }
  destruct Hinv as [_ Hwf _].
  intros Hb. split.
  - revert jb sb Hb. induction b as [b IH] using lt_wf_ind. intros jb sb Hb.
    destruct (Hwf b jb sb Hb) as (o & k & m & _ & _ & Hk & Hk0 & _).
    destruct (decide (k = 0)) as [->|Hne].
    + exists b, jb, sb. done.
    + assert (Hcnt : 1 <= count_of jb).
      { unfold count_of. rewrite Hk, or_default_zero. lia. }
      destruct (Hln b jb sb Hb Hcnt)
        as (a & ja & sa & Hab & Ha & _ & Hn & Ho & Hd & _).
      destruct (IH a Hab ja sa Ha) as (a0 & j0 & s0 & Hle & H0 & Hk00 & Hn0 & Ho0 & Hd0).
      exists a0, j0, s0. repeat split; try done; [lia|congruence..].
  - destruct (Hwf b jb sb Hb) as (o & k & m & _ & _ & Hk & Hk0 & Hm & Hkm).
    exists k, m. done.
Qed.

(** A lineage that fails four times under [maxRetries = 3]: three
    resubmissions, and the fourth failure is final; a fifth delivery finds
    nothing to deliver. *)
Example four_failures :
  map (fun p => (_retryCount (data (fst p)), _maxRetries (data (fst p)), snd p))
      (jobs_of (run [Deliver 0; Promote 1; Deliver 1; Promote 2; Deliver 2;
                     Promote 3; Deliver 3; Promote 4; Deliver 4; Deliver 3]
                    failing_world))
  = [(Some 0, Some 3, Bull.failed); (Some 1, Some 3, Bull.failed);
     (Some 2, Some 3, Bull.failed); (Some 3, Some 3, Bull.failed)].
Proof. reflexivity. Qed.

(** ** The zero budget *)

(** C2 does not hold on this run.  The first attempt carries
    [_maxRetries = 0] and [_retryCount = 0], so its failure arrives with
    [retryCount >= maxRetries]; [handleJobFailure] reads the budget as
    [0 || this.maxRetries], finds 2, and resubmits: the lineage ends with
    three attempts, two of them resubmissions, against a captured budget
    of 0. *)
Theorem zero_budget_is_retried :
  map (fun p => (order_of (fst p), _retryCount (data (fst p)),
                 _maxRetries (data (fst p)), snd p))
      (jobs_of zero_budget_run)
  = [(Some 0, Some 0, Some 0, Bull.failed);
     (Some 0, Some 1, Some 2, Bull.failed);
     (Some 0, Some 2, Some 2, Bull.failed)]
  /\ attempts (Some 0) (jobs_of zero_budget_run) = 3.
Proof. split; reflexivity. Qed.

(** ** Lineages that have ended *)

Lemma settled_effect (o : Z) (w w' : World) :
  settled o (jobs_of w) -> o < counter_of w -> effect w w' ->
  settled o (jobs_of w') /\ o < counter_of w'
  /\ unchanged o (jobs_of w) (jobs_of w').
Proof.
  intros Hs Ho [Hj Hle|job st Hj Hoj Hk Hm Hc'
               |i job st st' Hi Hnc Hnf Hj Hc'
               |i job retry st m Hi Hj Hoj Hk Hm Hlt Hc' _ _ _].
  - rewrite Hj. repeat split; [done|lia|]. by intros ???.
  - assert (Hun : unchanged o (jobs_of w) (jobs_of w')).
    { intros idx jb sb. rewrite Hj.
      intros [[_ Hold]|[_ [= <- <-]]]%lookup_snoc_Some Hob; [done|].
      rewrite Hoj in Hob. injection Hob as Heq. lia. }
    repeat split; [|lia|done].
    intros idx jb sb Hidx Hob. eapply Hs; [|exact Hob]. by apply Hun.
  - assert (Hne : _order (data job) <> Some o).
    { intros Hob. by destruct (Hs i job st Hi Hob). }
    assert (Hun : unchanged o (jobs_of w) (jobs_of w')).
    { intros idx jb sb. rewrite Hj. intros Hidx Hob.
      apply list_lookup_insert_Some in Hidx as [(-> & [= <- <-] & _)|[_ Hidx]];
        done. }
    repeat split; [|lia|done].
    intros idx jb sb Hidx Hob. eapply Hs; [|exact Hob]. by apply Hun.
  - assert (Hne : _order (data job) <> Some o).
    { intros Hob. by destruct (Hs i job Bull.waiting Hi Hob). }
    assert (Hun : unchanged o (jobs_of w) (jobs_of w')).
    { intros idx jb sb. rewrite Hj.
      intros [[_ Hidx]|[_ [= <- <-]]]%lookup_snoc_Some Hob.
      - apply list_lookup_insert_Some in Hidx as [(-> & [= <- <-] & _)|[_ Hidx]];
          done.
      - congruence. }
    repeat split; [|lia|done].
    intros idx jb sb Hidx Hob. eapply Hs; [|exact Hob]. by apply Hun.
Qed.

(** Once a lineage is settled, no run stores or moves a job of it. *)
Lemma settled_run (o : Z) (evs : list event) (w : World) :
  settled o (jobs_of w) -> o < counter_of w ->
  settled o (jobs_of (run evs w))
  /\ unchanged o (jobs_of w) (jobs_of (run evs w)).
Proof.
  revert w. induction evs as [|ev evs IH]; intros w Hs Ho.
  - split; [done|]. by intros ???.
  - destruct (settled_effect o w (step ev w) Hs Ho (step_effect ev w))
      as (Hs' & Ho' & Hun).
    destruct (IH (step ev w) Hs' Ho') as (Hs'' & Hun'').
    split; [done|]. intros i job st Hi Hob.
    apply Hun; [|done]. by apply Hun''.
Qed.

Lemma reachable_invariant (w : World) : reachable w -> invariant w.
Proof. intros (qn & evs & ->). apply invariant_run, invariant_new. Qed.

(** A waiting job that is marked failed while nothing is stored after it
    ends its lineage: every job of that order is failed, now and after
    any run. *)
Lemma lineage_ends_when_not_retried (w w' : World) (i : nat) (job : Job) :
  invariant w ->
  jobs_of w !! i = Some (job, Bull.waiting) ->
  jobs_of w' = <[i := (job, Bull.failed)]> (jobs_of w) ->
  counter_of w' = counter_of w ->
  forall evs (idx : nat) j st,
    jobs_of (run evs w') !! idx = Some (j, st) ->
    _order (data j) = _order (data job) ->
    jobs_of w' !! idx = Some (j, st) /\ st = Bull.failed.
Proof.
  intros [Hc Hwf Hch] Hi Hjobs Hco.
  destruct (Hwf i job _ Hi) as (o & k & m & Ho & Hoc & _).
  assert (Hfailed : forall (idx : nat) j st,
             jobs_of w' !! idx = Some (j, st) -> _order (data j) = Some o ->
             st = Bull.failed).
  { intros idx jb sb. rewrite Hjobs. intros Hidx Hob.
    destruct (lookup_restatus _ _ _ _ _ _ _ _ Hi Hidx) as (sb0 & Hold & Hne & Heq).
    destruct (lt_eq_lt_dec idx i) as [[Hlti| ->]|Hgti].
    - destruct (Hch idx i jb sb0 job Bull.waiting Hlti Hold Hi) as (Hf & _);
        [congruence|].
      rewrite <- (Hne ltac:(lia)). done.
    - by destruct (Heq eq_refl).
    - destruct (Hch i idx job Bull.waiting jb sb0 Hgti Hi Hold) as (Hf & _);
        [congruence|done]. }
  assert (Hs : settled o (jobs_of w')).
  { intros idx jb sb Hidx Hob. right. by eapply Hfailed. }
  intros evs idx j st Hidx Hsame. rewrite Ho in Hsame.
  destruct (settled_run o evs w' Hs) as (_ & Hun); [lia|].
  pose proof (Hun idx j st Hidx Hsame) as Hnow.
  split; [exact Hnow|]. by eapply Hfailed.
Qed.

(** X3. In a reachable world, a delivery that fails with the budget used
    up stores the attempt as failed and nothing else, and from then on no
    run stores or moves a job of that order: the lineage has ended. *)
Lemma exhausted_lineage_ends (w : World) (i : nat) (job : Job) (e : exn) :
  reachable w ->
  delivering w = true ->
  ready (redis w) i = Some job ->
  handler_error job w = Some e ->
  budget job w <= _retryCount (data job) ||? 0 ->
  jobs_of (step (Deliver i) w) = <[i := (job, Bull.failed)]> (jobs_of w)
  /\ forall evs (idx : nat) j st,
       jobs_of (run evs (step (Deliver i) w)) !! idx = Some (j, st) ->
       _order (data j) = _order (data job) ->
       jobs_of (step (Deliver i) w) !! idx = Some (j, st) /\ st = Bull.failed.
Proof.
  intros Hreach Hw Hr He Hge.
  pose proof (ready_Some _ _ _ Hr) as [_ Hi].
  destruct (deliver_failed_jobs i w job e Hw Hr He)
    as (Hco & [(Hjobs & _)|(_ & Hlt & _)]); [|lia].
  change (step (Deliver i) w) with (snd (deliver i w)).
  split; [exact Hjobs|].
  by apply (lineage_ends_when_not_retried w _ i job);
    [apply reachable_invariant| | |].
Qed.

(** C10. [handleJobFailure] returns normally in every world.  When the
    budget is not reached and the submission of the retry fails, the
    scheduler, the backend and the clock stay as they were and the console
    gets one error line that carries the backend's error.  In a delivery
    the callback still throws the handler's error; so in a reachable world
    the attempt is stored as failed, no job is added, the Order Index is
    untouched, and from then on every stored job of that lineage is one
    that is stored now, failed, at every later time. *)
Theorem retry_submission_failure_is_contained (job : Job) (e : exn) (w : World) :
  fst (handleJobFailure job e w) = Return tt
  /\ (_retryCount (data job) ||? 0 < budget job w ->
      queue (this w) = None \/ Bull.connected (redis w) = false ->
      (exists l1 l2,
         handleJobFailure job e w
         = (Return tt,
            {| this := this w; redis := redis w; clock := clock w;
               console := (console w ++ [l1]) ++ [l2] |})
         /\ lvl l1 = log /\ lvl l2 = error /\ is_Some (arg l2))
      /\ forall (i : nat),
           reachable w ->
           delivering w = true ->
           ready (redis w) i = Some job ->
           handler_error job w = Some e ->
           fst (worker_callback job (taken i w)) = Throw e
           /\ jobs_of (step (Deliver i) w)
              = <[i := (job, Bull.failed)]> (jobs_of w)
           /\ processingOrder (this (step (Deliver i) w))
              = processingOrder (this w)
           /\ forall evs (idx : nat) j st,
                jobs_of (run evs (step (Deliver i) w)) !! idx = Some (j, st) ->
                _order (data j) = _order (data job) ->
                jobs_of (step (Deliver i) w) !! idx = Some (j, st)
                /\ st = Bull.failed).
Proof.
  split; [apply handleJobFailure_returns|].
  intros Hlt Hrej. split.
  { destruct (queue (this w)) as [q|] eqn:Hq.
    - destruct Hrej as [?|Hc]; [done|].
      destruct (handleJobFailure_rejected job e w q Hlt Hq Hc) as (l1 & -> & Hl1).
      eexists l1, _. split; [reflexivity|]. repeat split; try done.
    - destruct (handleJobFailure_no_queue job e w Hlt Hq)
        as (l1 & l2 & -> & Hl1 & Hl2 & Harg).
      exists l1, l2. done. }
  intros i Hreach Hw Hr He.
  pose proof (ready_Some _ _ _ Hr) as [_ Hi].
  split.
  { by rewrite (worker_callback_fails job (taken i w) e He). }
  destruct (deliver_failed_jobs i w job e Hw Hr He)
    as (Hco & [(Hjobs & Hpo & _)|(_ & _ & [q Hq] & Hconn)]).
  2: { destruct Hrej; congruence. }
  change (step (Deliver i) w) with (snd (deliver i w)).
  split; [exact Hjobs|]. split; [exact Hpo|].
  by apply (lineage_ends_when_not_retried w _ i job);
    [apply reachable_invariant| | |].
Qed.

Lemma retry_submission_failure_is_contained_witness :
  fst (handleJobFailure demo_job (Error "boom") dropped_world) = Return tt
  /\ fst (worker_callback demo_job (taken 0 dropped_world)) = Throw (Error "boom")
  /\ jobs_of (step (Deliver 0) dropped_world)
     = <[0%nat := (demo_job, Bull.failed)]> (jobs_of dropped_world)
  /\ processingOrder (this (step (Deliver 0) dropped_world))
     = processingOrder (this dropped_world)
  /\ forall evs (idx : nat) j st,
       jobs_of (run evs (step (Deliver 0) dropped_world)) !! idx = Some (j, st) ->
       _order (data j) = _order (data demo_job) ->
       jobs_of (step (Deliver 0) dropped_world) !! idx = Some (j, st)
       /\ st = Bull.failed.
Proof.
  destruct (retry_submission_failure_is_contained demo_job (Error "boom")
              dropped_world) as [Hret Hrest].
  split; [exact Hret|].
  destruct Hrest as [_ Hsys]; [vm_compute; reflexivity | right; reflexivity |].
  apply (Hsys 0%nat); [|reflexivity..].
  exists "demo", [Initialize; RegisterProcessor "task" throwing; Start;
                  AddJob "task" ∅ no_options; Connection false].
  reflexivity.
Defined.

Example dropped_lineage_ends :
  map (fun p => (id (fst p), snd p))
      (jobs_of (run [Deliver 0; Connection true; Deliver 0; Promote 0; Deliver 0]
                    dropped_world))
  = [("1", Bull.failed)].
Proof. reflexivity. Qed.

(** The two cases of a call on the queue handle. *)
Lemma backend_cases (w : World) :
  (exists q, queue (this w) = Some q /\ Bull.connected (redis w) = true)
  \/ (queue (this w) = None \/ Bull.connected (redis w) = false).
Proof.
  destruct (queue (this w)); [|by right; left].
  destruct (Bull.connected (redis w)); [left; eauto | by right; right].
Qed.

(** ** The order that a rejected submission uses up *)

(** An order below the counter that no stored job carries is carried by
    no job stored later. *)
Lemma order_stays_unused (c : Z) (evs : list event) (w : World) :
  c < counter_of w ->
  (forall (i : nat) job st,
     jobs_of w !! i = Some (job, st) -> _order (data job) <> Some c) ->
  forall (i : nat) job st,
    jobs_of (run evs w) !! i = Some (job, st) -> _order (data job) <> Some c.
Proof.
  revert w. induction evs as [|ev evs IH]; intros w Hc Hw; [exact Hw|].
  change (run (ev :: evs) w) with (run evs (step ev w)).
  destruct (step_effect ev w) as [Hj Hco|jb sb Hj Ho _ _ Hco
                                 |i' jb sb sb' Hi' _ _ Hj Hco
                                 |i' jb rj sb m Hi' Hj Ho _ _ _ Hco _ _ _];
    (apply IH; [lia|]); rewrite Hj; intros i job st Hi.
  - by eapply Hw.
  - apply lookup_snoc_Some in Hi as [[_ Hi]|[_ [= <- <-]]]; [by eapply Hw|].
    rewrite Ho. intros [=]. lia.
  - apply list_lookup_insert_Some in Hi as [(-> & [= <- <-] & _)|[_ Hi]];
      by eapply Hw.
  - apply lookup_snoc_Some in Hi as [[_ Hi]|[_ [= <- <-]]].
    + apply list_lookup_insert_Some in Hi as [(-> & [= <- <-] & _)|[_ Hi]];
        by eapply Hw.
    + rewrite Ho. by eapply Hw.
Qed.

(** C9. On an initialized scheduler [addJob] increments the order counter
    before it reaches the backend.  The counter is one higher after every
    call, returned or thrown.  A call that the backend takes returns a job
    with the old counter value as its order.  A call that the backend
    rejects throws and stores nothing, and has used up that value all the
    same: the next call that the backend takes, whatever the environment
    did in between, returns a job whose order is one higher, and in a
    world reached from a new scheduler no job stored on any later run
    carries the order of the rejected call.  So a gap appears among the
    orders of the stored submissions. *)
Theorem addJob_increments_before_submission n d o (w : World) :
  isInitialized (this w) = true ->
  currentOrder (this (snd (addJob n d o w))) = currentOrder (this w) + 1
  /\ (forall job w1, addJob n d o w = (Return job, w1) ->
        _order (data job) = Some (currentOrder (this w)))
  /\ (is_Some (queue (this w)) -> Bull.connected (redis w) = true ->
      exists job w1,
        addJob n d o w = (Return job, w1)
        /\ _order (data job) = Some (currentOrder (this w))
        /\ exists st, Bull.jobs (redis w1) = Bull.jobs (redis w) ++ [(job, st)])
  /\ (queue (this w) = None \/ Bull.connected (redis w) = false ->
      exists e w1,
        addJob n d o w = (Throw e, w1)
        /\ Bull.jobs (redis w1) = Bull.jobs (redis w)
        /\ (forall w' n' d' o',
              this w' = this w1 ->
              is_Some (queue (this w')) ->
              Bull.connected (redis w') = true ->
              exists job w2,
                addJob n' d' o' w' = (Return job, w2)
                /\ _order (data job) = Some (currentOrder (this w) + 1))
        /\ (reachable w ->
            forall evs (i : nat) job st,
              jobs_of (run evs w1) !! i = Some (job, st) ->
              _order (data job) <> Some (currentOrder (this w)))).
Proof.
  intros Hi.
  destruct (backend_cases w) as [(q & Hq & Hc)|Hrej].
  - destruct (addJob_accepted n d o w q Hi Hq Hc)
      as (w' & Heq & Hthis & Hjobs & _).
    rewrite Heq. cbn [snd]. rewrite Hthis. cbn. split; [done|]. split.
    { by intros job w1 [= <- <-]. }
    split.
    { intros _ _. eexists _, _. split; [reflexivity|]. split; [done|]. eauto. }
    intros [Hn|Hn]; congruence.
  - destruct (addJob_rejected n d o w Hi Hrej)
      as (e & w' & Heq & Hthis & Hr & _).
    rewrite Heq. cbn [snd]. rewrite Hthis. cbn. split; [done|]. split.
    { intros ??. discriminate. }
    split.
    { intros [q Hq] Hc. destruct Hrej; congruence. }
    intros _. exists e, w'. split; [done|]. split; [by rewrite Hr|]. split.
    + intros w2 n' d' o' Hsame [q' Hq'] Hc'.
      assert (Hi2 : isInitialized (this w2) = true) by (by rewrite Hsame, Hthis).
      destruct (addJob_accepted n' d' o' w2 q' Hi2 Hq' Hc') as (w3 & Heq3 & _).
      eexists _, _. split; [exact Heq3|]. cbn. by rewrite Hsame, Hthis.
    + intros Hreach evs. apply order_stays_unused.
      * unfold counter_of. rewrite Hthis. cbn. lia.
      * intros i job st Hjob. unfold jobs_of in Hjob. rewrite Hr in Hjob.
        destruct (inv_jobs _ (reachable_invariant w Hreach) i job st Hjob)
          as (o' & ? & ? & Ho' & Hrange & _).
        rewrite Ho'. intros [= ->]. unfold counter_of in Hrange. lia.
Qed.

Lemma addJob_increments_before_submission_witness :
  (exists e w1 job w2,
     addJob "task" ∅ no_options offline_world = (Throw e, w1)
     /\ currentOrder (this offline_world) = 0
     /\ currentOrder (this w1) = 1
     /\ Bull.jobs (redis w1) = Bull.jobs (redis offline_world)
     /\ addJob "task" ∅ no_options (step (Connection true) w1) = (Return job, w2)
     /\ _order (data job) = Some 1
     /\ forall evs (i : nat) job' st,
          jobs_of (run evs w1) !! i = Some (job', st) ->
          _order (data job') <> Some 0)
  /\ exists job w1 st,
       addJob "task" ∅ no_options (step Initialize (new_world "demo"))
       = (Return job, w1)
       /\ _order (data job) = Some 0
       /\ currentOrder (this w1) = 1
       /\ Bull.jobs (redis w1) = [(job, st)].
Proof.
  split.
  - destruct (addJob_increments_before_submission "task" ∅ no_options
                offline_world) as (Hco & _ & _ & Hrej); [reflexivity|].
    destruct Hrej as (e & w1 & Heq & Hjobs & Hnext & Hgap); [by right|].
    rewrite Heq in Hco. cbn [snd] in Hco.
    destruct (Hnext (step (Connection true) w1) "task" ∅ no_options)
      as (job & w2 & Heq2 & Ho); [reflexivity| |reflexivity|].
    { injection Heq as _ <-. by eexists. }
    exists e, w1, job, w2. split; [done|]. split; [reflexivity|].
    split; [exact Hco|]. split; [done|]. split; [done|]. split; [exact Ho|].
    apply Hgap. by exists "demo", [Initialize; Connection false].
  - destruct (addJob_increments_before_submission "task" ∅ no_options
                (step Initialize (new_world "demo")))
      as (Hco & _ & Hacc & _); [reflexivity|].
    destruct Hacc as (job & w1 & Heq & Ho & st & Hjobs);
      [by eexists | reflexivity |].
    rewrite Heq in Hco. cbn [snd] in Hco.
    exists job, w1, st. split; [done|]. split; [exact Ho|].
    split; [exact Hco|]. exact Hjobs.
Defined.

(** * Further properties of the class *)

(** ** Lineages over whole runs *)

(** X1. In a reachable world, a lineage whose first attempt captured a
    budget [m <> 0] has at most [max 0 m + 1] stored attempts, whatever the
    configuration was changed to in between. *)
Theorem lineage_attempts_bounded (w : World) (i : nat) (job : Job) st (m : Z) :
  reachable w ->
  jobs_of w !! i = Some (job, st) ->
  _retryCount (data job) = Some 0 ->
  _maxRetries (data job) = Some m ->
  m <> 0 ->
  attempts (_order (data job)) (jobs_of w) <= Z.max 0 m + 1.
Proof.
  intros Hreach. apply attempts_within_budget. by apply reachable_invariant.
Qed.

Lemma lineage_attempts_bounded_witness :
  attempts (_order (data demo_job)) (jobs_of (run four_attempts (new_world "demo")))
  <= Z.max 0 3 + 1.
Proof.
  apply (lineage_attempts_bounded (run four_attempts (new_world "demo")) 0
           demo_job Bull.failed 3);
    [by exists "demo", four_attempts | vm_compute; reflexivity
    | reflexivity | reflexivity | discriminate].
Defined.

Lemma retry_descends_from_original_witness :
  exists jb,
    jobs_of (run four_attempts (new_world "demo")) !! 3%nat = Some (jb, Bull.failed)
    /\ (exists (a : nat) j0 s0,
          (a <= 3)%nat
          /\ jobs_of (run four_attempts (new_world "demo")) !! a = Some (j0, s0)
          /\ _retryCount (data j0) = Some 0
          /\ name jb = name j0
          /\ _order (data jb) = _order (data j0)
          /\ _originalData (data jb) = _originalData (data j0))
    /\ exists k m,
         _retryCount (data jb) = Some k /\ _maxRetries (data jb) = Some m
         /\ 0 <= k /\ (1 <= k -> k <= m).
Proof.
  eexists. split; [vm_compute; reflexivity|].
  apply (retry_descends_from_original "demo" four_attempts 3 _ Bull.failed).
  vm_compute. reflexivity.
Defined.

Lemma exhausted_lineage_ends_witness :
  exists job,
    ready (redis last_attempt_world) 3 = Some job
    /\ jobs_of (step (Deliver 3) last_attempt_world)
       = <[3%nat := (job, Bull.failed)]> (jobs_of last_attempt_world)
    /\ forall evs (idx : nat) j st,
         jobs_of (run evs (step (Deliver 3) last_attempt_world)) !! idx
           = Some (j, st) ->
         _order (data j) = _order (data job) ->
         jobs_of (step (Deliver 3) last_attempt_world) !! idx = Some (j, st)
         /\ st = Bull.failed.
Proof.
  eexists. split; [vm_compute; reflexivity|].
  apply (exhausted_lineage_ends last_attempt_world 3 _ (Error "boom"));
    [|reflexivity | vm_compute; reflexivity | vm_compute; reflexivity
     | vm_compute; discriminate].
  exists "demo", [Initialize; RegisterProcessor "task" throwing; Start;
                  AddJob "task" ∅ no_options;
                  Deliver 0; Promote 1; Deliver 1; Promote 2; Deliver 2; Promote 3].
  reflexivity.
Defined.

(** ** What the retry coordinator and the cleanup leave alone *)

(** X4. In every world [handleJobFailure] keeps the counter, the
    configuration, the registry and the handles, keeps every stored job as
    it is, and stores at most one more; when it stores none the Order Index
    is unchanged, and when it stores one the index gains exactly the entry
    of that job, with the order of the failed one. *)
Theorem handleJobFailure_footprint (job : Job) (e : exn) (w : World) :
  exists po' extra,
    this (snd (handleJobFailure job e w)) = set_processingOrder po' (this w)
    /\ clock (snd (handleJobFailure job e w)) = clock w
    /\ redis (snd (handleJobFailure job e w))
       = {| Bull.jobs := Bull.jobs (redis w) ++ extra;
            Bull.counter := Bull.counter (redis w);
            Bull.connected := Bull.connected (redis w);
            Bull.paused := Bull.paused (redis w) |}
    /\ (extra = [] /\ po' = processingOrder (this w)
        \/ exists retry st,
             extra = [(retry, st)]
             /\ po' = <[id retry := _order (data job)]> (processingOrder (this w))
             /\ name retry = name job
             /\ _order (data retry) = _order (data job)
             /\ delay retry = retryDelay (this w)).
Proof.
  destruct (Z_lt_le_dec (_retryCount (data job) ||? 0) (budget job w)) as [Hlt|Hge].
  - destruct (queue (this w)) as [q|] eqn:Hq.
    + destruct (Bull.connected (redis w)) eqn:Hc.
      * destruct (handleJobFailure_retry job e w q Hlt Hq Hc) as (? & ? & -> & _).
        eexists _, _. cbn.
        split; [reflexivity|]. split; [reflexivity|].
        split; [f_equal; try reflexivity; congruence|].
        right. eexists _, _. split; [reflexivity|]. done.
      * destruct (handleJobFailure_rejected job e w q Hlt Hq Hc) as (? & -> & _).
        exists (processingOrder (this w)), []. cbn. rewrite app_nil_r.
        split; [done|]. split; [done|]. split; [by rewrite <- Hc|]. by left.
    + destruct (handleJobFailure_no_queue job e w Hlt Hq) as (? & ? & -> & _).
      exists (processingOrder (this w)), []. cbn. rewrite app_nil_r.
      split; [done|]. split; [done|]. split; [done|]. by left.
  - destruct (handleJobFailure_exhausted job e w Hge) as (? & -> & _).
    exists (processingOrder (this w)), []. cbn. rewrite app_nil_r.
    split; [done|]. split; [done|]. split; [done|]. by left.
Qed.

(** X5. In every world, also when the scheduler is not initialized or the
    backend does not answer, [cleanupOrderedJobs] returns normally, leaves
    the backend, the clock and every property of the scheduler but the
    Order Index as they were, and never adds or changes an index entry: it
    only removes entries. *)
Theorem cleanupOrderedJobs_only_removes (w : World) :
  exists po',
    fst (cleanupOrderedJobs w) = Return tt
    /\ this (snd (cleanupOrderedJobs w)) = set_processingOrder po' (this w)
    /\ redis (snd (cleanupOrderedJobs w)) = redis w
    /\ clock (snd (cleanupOrderedJobs w)) = clock w
    /\ (forall k v, po' !! k = Some v -> processingOrder (this w) !! k = Some v)
    /\ (queue (this w) = None \/ Bull.connected (redis w) = false ->
        po' = processingOrder (this w)).
Proof.
  assert (Hcases : (exists q, queue (this w) = Some q
                              /\ Bull.connected (redis w) = true)
                   \/ (queue (this w) = None
                       \/ Bull.connected (redis w) = false)).
  { destruct (queue (this w)); [|by right; left].
    destruct (Bull.connected (redis w)); [left; eauto | by right; right]. }
  destruct Hcases as [(q & Hq & Hc)|Hrej].
  - destruct (cleanupOrderedJobs_answered w q Hq Hc) as (? & -> & _).
    eexists. cbn. split; [done|]. split; [reflexivity|].
    split; [done|]. split; [done|]. split.
    + intros k v. rewrite delete_ids_lookup. by case_decide.
    + intros [?|?]; congruence.
  - destruct (cleanupOrderedJobs_unanswered w Hrej) as (? & ->).
    exists (processingOrder (this w)). done.
Qed.

(** ** Deliveries that succeed, and the registry *)

(** The callback ends as the registered processor ends on the original
    payload: it returns its value, or throws the very error it threw. *)
Lemma worker_callback_outcome (job : Job) (w : World) (p : Processor) :
  processors (this w) !! name job = Some p ->
  fst (worker_callback job w) = p (_originalData (data job)) job.
Proof.
  intros Hp. destruct (p (_originalData (data job)) job) as [v|e] eqn:Hr.
  - destruct (worker_callback_succeeds job w) as (v' & w' & Heq & _).
    { unfold handler_error. by rewrite Hp, Hr. }
    rewrite Heq. cbn. revert Heq.
    unfold worker_callback. unfold_M. cbn. rewrite Hp, Hr. cbn. congruence.
  - rewrite (worker_callback_fails job w e); [done|].
    unfold handler_error. by rewrite Hp, Hr.
Qed.

(** A stored job that is completed or failed stays as it is on every
    run. *)
Lemma finished_stays (evs : list event) (w : World) (i : nat) (job : Job) st :
  jobs_of w !! i = Some (job, st) ->
  st = Bull.completed \/ st = Bull.failed ->
  jobs_of (run evs w) !! i = Some (job, st).
Proof.
  revert w. induction evs as [|ev evs IH]; intros w Hi Hst; [done|].
  cbn. apply IH; [|done].
  destruct (step_effect ev w) as [Hj _|jb sb Hj _ _ _ _
                                 |i' jb sb sb' Hi' Hnc Hnf Hj _
                                 |i' jb rj sb m Hi' Hj _ _ _ _ _ _ _ _].
  - by rewrite Hj.
  - rewrite Hj. by apply lookup_app_l_Some.
  - rewrite Hj. rewrite list_lookup_insert_ne; [done|].
    intros ->. rewrite Hi in Hi'. injection Hi' as <- <-. by destruct Hst.
  - rewrite Hj. apply lookup_app_l_Some. rewrite list_lookup_insert_ne; [done|].
    intros ->. rewrite Hi in Hi'. injection Hi' as _ ->. by destruct Hst.
Qed.

(** X6. A delivery whose registered processor returns [v] on the job's
    original payload makes the callback return [v], stores the job as
    completed, stores no other job and leaves the scheduler as it was; the
    job then stays completed on every run: it is not delivered again and
    no retry is made for it. *)
Theorem successful_delivery_completes
  (w : World) (i : nat) (job : Job) (p : Processor) (v : value) :
  delivering w = true ->
  ready (redis w) i = Some job ->
  processors (this w) !! name job = Some p ->
  p (_originalData (data job)) job = Return v ->
  fst (worker_callback job (taken i w)) = Return v
  /\ this (step (Deliver i) w) = this w
  /\ jobs_of (step (Deliver i) w) = <[i := (job, Bull.completed)]> (jobs_of w)
  /\ forall evs,
       jobs_of (run evs (step (Deliver i) w)) !! i = Some (job, Bull.completed).
Proof.
  intros Hw Hr Hp Hv.
  split; [by rewrite (worker_callback_outcome job (taken i w) p Hp)|].
  assert (He : handler_error job w = None).
  { unfold handler_error. by rewrite Hp, Hv. }
  pose proof (ready_Some _ _ _ Hr) as [_ Hi].
  destruct (deliver_completed i w job Hw Hr He) as (w' & Heq & Hthis & _ & Hredis).
  change (step (Deliver i) w) with (snd (deliver i w)). rewrite Heq. cbn [snd].
  split; [done|].
  assert (Hjobs : jobs_of w' = <[i := (job, Bull.completed)]> (jobs_of w)).
  { unfold jobs_of. rewrite Hredis. rewrite <- (app_nil_r (<[i:=_]> _)).
    apply (move_after_take i (redis w) _ job Bull.waiting); [done|].
    by rewrite app_nil_r. }
  split; [done|]. intros evs. apply finished_stays; [|by left].
  rewrite Hjobs. apply list_lookup_insert_eq. by eapply lookup_lt_Some.
Qed.

Lemma successful_delivery_completes_witness :
  exists job,
    ready (redis (step (AddJob "good" ∅ no_options) mixed_world)) 2 = Some job
    /\ fst (worker_callback job
              (taken 2 (step (AddJob "good" ∅ no_options) mixed_world)))
       = Return (VBool true)
    /\ this (step (Deliver 2) (step (AddJob "good" ∅ no_options) mixed_world))
       = this (step (AddJob "good" ∅ no_options) mixed_world)
    /\ jobs_of (step (Deliver 2) (step (AddJob "good" ∅ no_options) mixed_world))
       = <[2%nat := (job, Bull.completed)]>
           (jobs_of (step (AddJob "good" ∅ no_options) mixed_world))
    /\ forall evs,
         jobs_of (run evs (step (Deliver 2)
                             (step (AddJob "good" ∅ no_options) mixed_world)))
           !! 2%nat
         = Some (job, Bull.completed).
Proof.
  eexists. split; [vm_compute; reflexivity|].
  apply (successful_delivery_completes
           (step (AddJob "good" ∅ no_options) mixed_world) 2 _ returning
           (VBool true));
    vm_compute; reflexivity.
Defined.

(** X7. Registering a processor under a name replaces the one registered
    before under that name and leaves the other names alone: after
    [registerProcessor(n, p1)], [registerProcessor(n, p2)] and
    [registerProcessor(n', p3)] with [n' <> n], the callback of a job named
    [n] ends as [p2] ends on the job's original payload. *)
Theorem registerProcessor_last_wins
  (w : World) (n n' : string) (p1 p2 p3 : Processor) (job : Job) :
  name job = n ->
  n' <> n ->
  fst (worker_callback job
         (snd (registerProcessor n' p3
                 (snd (registerProcessor n p2
                         (snd (registerProcessor n p1 w)))))))
  = p2 (_originalData (data job)) job.
Proof.
  intros Hn Hne. apply worker_callback_outcome.
  unfold registerProcessor. unfold_M. cbn.
  rewrite Hn, lookup_insert_ne by done. apply lookup_insert_eq.
Qed.

Lemma registerProcessor_last_wins_witness :
  fst (worker_callback demo_job
         (snd (registerProcessor "other" throwing
                 (snd (registerProcessor "task" returning
                         (snd (registerProcessor "task" throwing demo_world)))))))
  = returning (_originalData (data demo_job)) demo_job.
Proof.
  apply (registerProcessor_last_wins demo_world "task" "other" throwing
           returning throwing demo_job); [reflexivity | discriminate].
Defined.

(** ** The properties of the scheduler along a run *)

Lemma handleJobFailure_this (job : Job) (e : exn) (w : World) :
  exists po',
    this (snd (handleJobFailure job e w)) = set_processingOrder po' (this w).
Proof.
  destruct (Z_lt_le_dec (_retryCount (data job) ||? 0) (budget job w)) as [Hlt|Hge].
  - destruct (queue (this w)) as [q|] eqn:Hq.
    + destruct (Bull.connected (redis w)) eqn:Hc.
      * destruct (handleJobFailure_retry job e w q Hlt Hq Hc) as (? & ? & -> & _).
        eexists. reflexivity.
      * destruct (handleJobFailure_rejected job e w q Hlt Hq Hc) as (? & -> & _).
        by exists (processingOrder (this w)).
    + destruct (handleJobFailure_no_queue job e w Hlt Hq) as (? & ? & -> & _).
      by exists (processingOrder (this w)).
  - destruct (handleJobFailure_exhausted job e w Hge) as (? & -> & _).
    by exists (processingOrder (this w)).
Qed.

(** Every event changes the scheduler as [on_this] says, up to the Order
    Index. *)
Lemma step_this (ev : event) (w : World) :
  exists po',
    this (step ev w) = set_processingOrder po' (on_this ev (this w))
    /\ match ev with
       | AddJob _ _ _ | CleanupOrderedJobs | Deliver _ => True
       | _ => po' = processingOrder (this w)
       end.
Proof.
  destruct ev; cbn [step on_this]; unfold ignore.
  - by exists (processingOrder (this w)).
  - by exists (processingOrder (this w)).
  - destruct (isInitialized (this w)) eqn:Hi.
    + destruct (backend_cases w) as [(q & Hq & Hc)|Hrej].
      * destruct (addJob_accepted jobName data0 options w q Hi Hq Hc)
          as (w' & -> & Hthis & _).
        cbn [snd]. rewrite Hthis. eexists. split; reflexivity.
      * destruct (addJob_rejected jobName data0 options w Hi Hrej)
          as (e & w' & -> & Hthis & _).
        cbn [snd]. rewrite Hthis. by exists (processingOrder (this w)).
    + rewrite (addJob_not_initialized jobName data0 options w Hi).
      by exists (processingOrder (this w)).
  - exists (processingOrder (this w)). split; [|done].
    unfold start. unfold_M. cbn. by destruct (isInitialized (this w)).
  - by exists (processingOrder (this w)).
  - exists (processingOrder (this w)). split; [|done].
    unfold getOrderedJobCounts; unfold_M;
      unfold Bull.getJobCounts, Bull.getJobs; cbn;
      repeat (case_match; simplify_eq; cbn); done.
  - destruct (backend_cases w) as [(q & Hq & Hc)|Hrej].
    + destruct (cleanupOrderedJobs_answered w q Hq Hc) as (? & -> & _).
      eexists. split; reflexivity.
    + destruct (cleanupOrderedJobs_unanswered w Hrej) as (? & ->).
      by exists (processingOrder (this w)).
  - exists (processingOrder (this w)). split; [|done]. unfold pause; unfold_M;
      unfold Bull.set_paused; cbn; repeat (case_match; simplify_eq; cbn); done.
  - exists (processingOrder (this w)). split; [|done]. unfold resume; unfold_M;
      unfold Bull.set_paused; cbn; repeat (case_match; simplify_eq; cbn); done.
  - exists (processingOrder (this w)). split; [|done].
    unfold close, QueueScheduler_close;
      unfold_M; cbn;
      by destruct (worker (this w)), (scheduler (this w)), (queue (this w)).
  - destruct (delivering w) eqn:Hw.
    2: { rewrite deliver_idle by (by left). by exists (processingOrder (this w)). }
    destruct (ready (redis w) i) as [job|] eqn:Hr.
    2: { rewrite deliver_idle by (by right). by exists (processingOrder (this w)). }
    destruct (handler_error job w) as [e|] eqn:He.
    + destruct (deliver_failed i w job e Hw Hr He) as (w' & -> & Hthis & _).
      cbn [snd]. rewrite Hthis.
      destruct (handleJobFailure_this job e (at_failure e (taken i w)))
        as [po' Hpo].
      by exists po'.
    + destruct (deliver_completed i w job Hw Hr He) as (w' & -> & Hthis & _).
      cbn [snd]. rewrite Hthis. by exists (processingOrder (this w)).
  - exists (processingOrder (this w)). split; [|done]. unfold promote.
    destruct (Bull.jobs (redis w) !! i) as [[job []]|]; done.
  - by exists (processingOrder (this w)).
  - by exists (processingOrder (this w)).
Qed.

Lemma step_initialized (ev : event) (w : World) :
  isInitialized (this (step ev w)) = isInitialized (this w) || initializes ev.
Proof.
  destruct (step_this ev w) as (po' & -> & _).
  destruct (isInitialized (this w)) eqn:Hi, (worker (this w)) eqn:Hwk;
    destruct ev; cbn; rewrite ?Hi, ?Hwk; cbn; rewrite ?Hi; done.
Qed.

Lemma submissions_cons (init : bool) (ev : event) (evs : list event) :
  submissions init (ev :: evs)
  = submissions init [ev] + submissions (init || initializes ev) evs.
Proof. destruct ev, init; cbn; lia. Qed.

Lemma step_counter (ev : event) (w : World) :
  counter_of (step ev w)
  = counter_of w + submissions (isInitialized (this w)) [ev].
Proof.
  unfold counter_of. destruct (step_this ev w) as (po' & -> & _).
  destruct (isInitialized (this w)) eqn:Hi, (worker (this w)) eqn:Hwk;
    destruct ev; cbn; rewrite ?Hi, ?Hwk; cbn; lia.
Qed.

(** X8. The order counter counts the [addJob] calls that pass the guard,
    and nothing else: after any run of public methods and moves of the
    environment it has grown by the number of [addJob] calls made once
    [initialize] has run, whether the backend took them or not.  Retries,
    deliveries, [cleanupOrderedJobs], [close] and a second [initialize]
    leave it as it is. *)
Theorem counter_counts_submissions (evs : list event) (w : World) :
  counter_of (run evs w)
  = counter_of w + submissions (isInitialized (this w)) evs.
Proof.
  revert w. induction evs as [|ev evs IH]; intros w; [cbn; lia|].
  change (run (ev :: evs) w) with (run evs (step ev w)).
  rewrite IH, step_counter, step_initialized, (submissions_cons _ ev evs). lia.
Qed.

Lemma step_config (ev : event) (w : World) :
  (maxRetries (this (step ev w)), retryDelay (this (step ev w)))
  = config_after [ev] (maxRetries (this w), retryDelay (this w)).
Proof.
  destruct (step_this ev w) as (po' & -> & _).
  destruct (isInitialized (this w)) eqn:Hi, (worker (this w)) eqn:Hwk;
    destruct ev; cbn; rewrite ?Hi, ?Hwk; done.
Qed.

(** X9. The retry configuration is changed by [setRetryConfig] alone:
    after any run, [maxRetries] and [retryDelay] are the arguments of the
    last [setRetryConfig] of the run, and the values from before the run
    when it has none. *)
Theorem config_follows_setRetryConfig (evs : list event) (w : World) :
  (maxRetries (this (run evs w)), retryDelay (this (run evs w)))
  = config_after evs (maxRetries (this w), retryDelay (this w)).
Proof.
  revert w. induction evs as [|ev evs IH]; intros w; [done|].
  change (run (ev :: evs) w) with (run evs (step ev w)).
  rewrite IH, step_config. done.
Qed.

Lemma step_registry (ev : event) (w : World) :
  processors (this (step ev w)) = registry_after [ev] (processors (this w)).
Proof.
  destruct (step_this ev w) as (po' & -> & _).
  destruct (isInitialized (this w)) eqn:Hi, (worker (this w)) eqn:Hwk;
    destruct ev; cbn; rewrite ?Hi, ?Hwk; done.
Qed.

(** X10. The registry is changed by [registerProcessor] alone: after any
    run it holds the registrations of the run, later ones over earlier
    ones, on top of the registry from before the run; no method removes a
    processor. *)
Theorem registry_follows_registerProcessor (evs : list event) (w : World) :
  processors (this (run evs w)) = registry_after evs (processors (this w))
  /\ forall n, is_Some (processors (this w) !! n) ->
               is_Some (processors (this (run evs w)) !! n).
Proof.
  revert w. induction evs as [|ev evs IH]; intros w; [done|].
  change (run (ev :: evs) w) with (run evs (step ev w)).
  destruct (IH (step ev w)) as [-> Hkeep]. split; [by rewrite step_registry|].
  intros n Hn. apply Hkeep. rewrite step_registry.
  destruct ev; cbn; try done.
  rewrite lookup_insert_is_Some. destruct (decide (jobName = n)); auto.
Qed.

(** ** The handles, and the errors of the guarded methods *)

Lemma step_handles (ev : event) (w : World) :
  (isInitialized (this w) = true -> is_Some (queue (this w))) ->
  isInitialized (this (step ev w)) = true ->
  is_Some (queue (this (step ev w))).
Proof.
  destruct (step_this ev w) as (po' & -> & _).
  destruct (isInitialized (this w)) eqn:Hi, (worker (this w)) eqn:Hwk;
    destruct ev; cbn; rewrite ?Hi, ?Hwk; cbn; rewrite ?Hi; eauto.
Qed.

Lemma reachable_handles (w : World) :
  reachable w -> isInitialized (this w) = true -> is_Some (queue (this w)).
Proof.
  intros (qn & evs & ->).
  assert (Hrun : forall evs w0,
             (isInitialized (this w0) = true -> is_Some (queue (this w0))) ->
             isInitialized (this (run evs w0)) = true ->
             is_Some (queue (this (run evs w0)))).
  { clear. induction evs as [|ev evs IH]; intros w0 H0; [done|].
    change (run (ev :: evs) w0) with (run evs (step ev w0)).
    apply IH. by apply step_handles. }
  apply Hrun. done.
Qed.

(** X11. In a world reached from a new scheduler by public methods and
    moves of the environment, the guarded methods [addJob],
    [getOrderedJobCounts], [getJob], [getJobs], [pause] and [resume] end in
    one of three ways only: before [initialize] they throw the
    not-initialized error; after it they throw the error of the backend
    when the connection is down, as the backend threw it; otherwise they
    return.  The [TypeError] of a [null] queue never arises, because
    [isInitialized] is only set together with [this.queue] and no method
    resets either. *)
Theorem guarded_methods_errors (w : World) :
  reachable w ->
  forall n d o jobId st first last,
    thrown (fst (addJob n d o w)) = guarded_error w
    /\ thrown (fst (getOrderedJobCounts w)) = guarded_error w
    /\ thrown (fst (getJob jobId w)) = guarded_error w
    /\ thrown (fst (getJobs st first last w)) = guarded_error w
    /\ thrown (fst (pause w)) = guarded_error w
    /\ thrown (fst (resume w)) = guarded_error w.
Proof.
  intros Hreach n d o jobId st first last.
  pose proof (reachable_handles w Hreach) as Hq.
  unfold guarded_error.
  destruct (isInitialized (this w)) eqn:Hi.
  - destruct Hq as [q Hq]; [done|].
    destruct (Bull.connected (redis w)) eqn:Hc.
    + split.
      { by destruct (addJob_accepted n d o w q Hi Hq Hc) as (? & -> & _). }
      split.
      { by destruct (getOrderedJobCounts_answered w q Hi Hq Hc) as (? & ->). }
      unfold getJob, getJobs, pause, resume. unfold_M.
      unfold Bull.getJob, Bull.getJobsRange, Bull.set_paused.
      rewrite Hi. cbn. rewrite Hq. cbn. rewrite Hc. done.
    + split.
      { unfold addJob. unfold_M. rewrite Hi. cbn. rewrite Hq. cbn.
        unfold Bull.add. by rewrite Hc. }
      split.
      { unfold getOrderedJobCounts.
        unfold mbind at 1, M_bind at 1, get_this at 1. rewrite Hi. cbn [negb].
        unfold try_catch. unfold mbind, M_bind at 1.
        rewrite (with_queue_Some _ _ _ q Hq).
        unfold on_redis at 1, Bull.getJobCounts. by rewrite Hc. }
      unfold getJob, getJobs, pause, resume. unfold_M.
      unfold Bull.getJob, Bull.getJobsRange, Bull.set_paused.
      rewrite Hi. cbn. rewrite Hq. cbn. rewrite Hc. done.
  - split; [by rewrite (addJob_not_initialized n d o w Hi)|].
    split; [by rewrite (getOrderedJobCounts_not_initialized w Hi)|].
    unfold getJob, getJobs, pause, resume. unfold_M. rewrite Hi. done.
Qed.

Lemma guarded_methods_errors_witness :
  thrown (fst (addJob "task" ∅ no_options offline_world))
    = Some Bull.connection_closed
  /\ thrown (fst (getOrderedJobCounts offline_world))
     = Some Bull.connection_closed
  /\ thrown (fst (getJob "1" offline_world)) = Some Bull.connection_closed
  /\ thrown (fst (getJobs Bull.waiting 0 100 offline_world))
     = Some Bull.connection_closed
  /\ thrown (fst (pause offline_world)) = Some Bull.connection_closed
  /\ thrown (fst (resume offline_world)) = Some Bull.connection_closed.
Proof.
  apply (guarded_methods_errors offline_world).
  by exists "demo", [Initialize; Connection false].
Defined.

(** X12. What the methods leave behind when the backend rejects the call
    of an initialized scheduler: [addJob] and [getOrderedJobCounts] log the
    error once with [console.error] and throw it on; [getJob], [getJobs],
    [pause] and [resume] throw it and leave the world, console included,
    as it was; [cleanupOrderedJobs] logs it and returns.  Only [addJob]
    changes the scheduler, by the order it has consumed. *)
Theorem backend_error_is_passed_on (w : World) (q : Bull.Queue) :
  isInitialized (this w) = true ->
  queue (this w) = Some q ->
  Bull.connected (redis w) = false ->
  forall n d o jobId st first last,
    addJob n d o w
    = (Throw Bull.connection_closed,
       logged error "Failed to add job:" (Some Bull.connection_closed)
         {| this := set_currentOrder (currentOrder (this w) + 1) (this w);
            redis := redis w; clock := clock w; console := console w |})
    /\ getOrderedJobCounts w
       = (Throw Bull.connection_closed,
          logged error "Failed to get ordered job counts:"
            (Some Bull.connection_closed) w)
    /\ cleanupOrderedJobs w
       = (Return tt,
          logged error "Failed to cleanup ordered jobs:"
            (Some Bull.connection_closed) w)
    /\ getJob jobId w = (Throw Bull.connection_closed, w)
    /\ getJobs st first last w = (Throw Bull.connection_closed, w)
    /\ pause w = (Throw Bull.connection_closed, w)
    /\ resume w = (Throw Bull.connection_closed, w).
Proof.
  intros Hi Hq Hc n d o jobId st first last.
  split.
  { unfold addJob. unfold_M. rewrite Hi. cbn. rewrite Hq. cbn.
    unfold Bull.add. rewrite Hc. unfold logged. cbn. by destruct (redis w). }
  split.
  { unfold getOrderedJobCounts.
    unfold mbind at 1, M_bind at 1, get_this at 1. rewrite Hi. cbn [negb].
    unfold try_catch. unfold mbind, M_bind at 1.
    rewrite (with_queue_Some _ _ _ q Hq).
    unfold on_redis at 1, Bull.getJobCounts. rewrite Hc. done. }
  split.
  { unfold cleanupOrderedJobs, try_catch. unfold mbind, M_bind at 1.
    by rewrite (with_queue_Some _ _ _ q Hq), (getJobs_disconnected _ _ Hc). }
  unfold getJob, getJobs, pause, resume. unfold_M.
  unfold Bull.getJob, Bull.getJobsRange, Bull.set_paused.
  rewrite Hi. cbn. rewrite Hq. cbn. rewrite Hc. cbn. by destruct w.
Qed.

Lemma backend_error_is_passed_on_witness :
  addJob "task" ∅ no_options offline_world
  = (Throw Bull.connection_closed,
     logged error "Failed to add job:" (Some Bull.connection_closed)
       {| this := set_currentOrder (currentOrder (this offline_world) + 1)
                    (this offline_world);
          redis := redis offline_world; clock := clock offline_world;
          console := console offline_world |})
  /\ getOrderedJobCounts offline_world
     = (Throw Bull.connection_closed,
        logged error "Failed to get ordered job counts:"
          (Some Bull.connection_closed) offline_world)
  /\ cleanupOrderedJobs offline_world
     = (Return tt,
        logged error "Failed to cleanup ordered jobs:"
          (Some Bull.connection_closed) offline_world)
  /\ getJob "1" offline_world = (Throw Bull.connection_closed, offline_world)
  /\ getJobs Bull.waiting 0 100 offline_world
     = (Throw Bull.connection_closed, offline_world)
  /\ pause offline_world = (Throw Bull.connection_closed, offline_world)
  /\ resume offline_world = (Throw Bull.connection_closed, offline_world).
Proof.
  apply (backend_error_is_passed_on offline_world
           {| Bull.q_name := "demo"; Bull.removeOnComplete := 100;
              Bull.removeOnFail := 50; Bull.q_attempts := 1 |});
    reflexivity.
Defined.

(** ** The Order Index and the stored jobs *)

Lemma handleJobFailure_indexing (job : Job) (e : exn) (w : World) :
  (processingOrder (this (snd (handleJobFailure job e w)))
     = processingOrder (this w)
   /\ jobs_of (snd (handleJobFailure job e w)) = jobs_of w)
  \/ exists retry st,
       jobs_of (snd (handleJobFailure job e w)) = jobs_of w ++ [(retry, st)]
       /\ processingOrder (this (snd (handleJobFailure job e w)))
          = <[id retry := _order (data retry)]> (processingOrder (this w)).
Proof.
  destruct (Z_lt_le_dec (_retryCount (data job) ||? 0) (budget job w)) as [Hlt|Hge].
  - destruct (queue (this w)) as [q|] eqn:Hq.
    + destruct (Bull.connected (redis w)) eqn:Hc.
      * destruct (handleJobFailure_retry job e w q Hlt Hq Hc) as (? & ? & -> & _).
        right. eexists _, _. split; reflexivity.
      * destruct (handleJobFailure_rejected job e w q Hlt Hq Hc) as (? & -> & _).
        by left.
    + destruct (handleJobFailure_no_queue job e w Hlt Hq) as (? & ? & -> & _).
      by left.
  - destruct (handleJobFailure_exhausted job e w Hge) as (? & -> & _). by left.
Qed.

Lemma step_indexing (ev : event) (w : World) : indexing w (step ev w).
Proof.
  assert (Hsame : forall w',
             processingOrder (this w') = processingOrder (this w) ->
             indexing w w').
  { intros w' Heq. apply indexing_removes. intros k v. by rewrite Heq. }
  destruct ev;
    try (apply Hsame;
         match goal with
         | |- context [step ?ev w] => by destruct (step_this ev w) as (po' & -> & ->)
         end).
  - (* addJob *)
    cbn [step]. unfold ignore.
    destruct (isInitialized (this w)) eqn:Hi.
    + destruct (backend_cases w) as [(q & Hq & Hc)|Hrej].
      * destruct (addJob_accepted jobName data0 options w q Hi Hq Hc)
          as (w' & -> & Hthis & Hjobs & _).
        cbn [snd]. eapply (indexing_records _ _ (first_job jobName data0 options w)).
        -- unfold jobs_of. rewrite Hjobs. apply elem_of_app. right.
           apply elem_of_cons. by left.
        -- by rewrite Hthis.
      * destruct (addJob_rejected jobName data0 options w Hi Hrej)
          as (e & w' & -> & Hthis & _).
        apply Hsame. cbn [snd]. by rewrite Hthis.
    + rewrite (addJob_not_initialized jobName data0 options w Hi). by apply Hsame.
  - (* cleanupOrderedJobs *)
    cbn [step]. unfold ignore.
    destruct (backend_cases w) as [(q & Hq & Hc)|Hrej].
    + destruct (cleanupOrderedJobs_answered w q Hq Hc) as (? & -> & _).
      apply indexing_removes. intros k v. cbn.
      rewrite delete_ids_lookup. by case_decide.
    + destruct (cleanupOrderedJobs_unanswered w Hrej) as (? & ->). by apply Hsame.
  - (* a delivery *)
    cbn [step]. unfold ignore.
    destruct (delivering w) eqn:Hw.
    2: { rewrite deliver_idle by (by left). by apply Hsame. }
    destruct (ready (redis w) i) as [job|] eqn:Hr.
    2: { rewrite deliver_idle by (by right). by apply Hsame. }
    destruct (handler_error job w) as [e|] eqn:He.
    + destruct (deliver_failed i w job e Hw Hr He)
        as (w' & -> & Hthis & _ & Hredis).
      cbn [snd].
      destruct (handleJobFailure_indexing job e (at_failure e (taken i w)))
        as [[Hpo _]|(retry & st & Hjobs & Hpo)].
      * apply Hsame. by rewrite Hthis, Hpo.
      * apply (indexing_records _ _ retry st); [|by rewrite Hthis, Hpo].
        unfold jobs_of in *. rewrite Hredis. cbn [Bull.move Bull.jobs].
        rewrite Hjobs. apply ready_Some in Hr as [_ Hi].
        rewrite alter_app_l.
        -- apply elem_of_app. right. apply elem_of_cons. by left.
        -- cbn. rewrite length_alter. by eapply lookup_lt_Some.
    + destruct (deliver_completed i w job Hw Hr He) as (w' & -> & Hthis & _).
      apply Hsame. cbn [snd]. by rewrite Hthis.
Qed.

Lemma restatus_persists (l : list (Job * Bull.status)) (i : nat) jb sb sb' :
  l !! i = Some (jb, sb) ->
  forall job st, (job, st) ∈ l -> exists st', (job, st') ∈ <[i := (jb, sb')]> l.
Proof.
  intros Hi job st [j Hj]%list_elem_of_lookup.
  destruct (decide (j = i)) as [->|Hne].
  - rewrite Hi in Hj. injection Hj as <- <-. exists sb'.
    apply list_elem_of_lookup. exists i. apply list_lookup_insert_eq.
    by eapply lookup_lt_Some.
  - exists st. apply list_elem_of_lookup. exists j.
    by rewrite list_lookup_insert_ne.
Qed.

(** A stored job stays stored; only its status changes. *)
Lemma effect_persists (w w' : World) :
  effect w w' ->
  forall job st, (job, st) ∈ jobs_of w -> exists st', (job, st') ∈ jobs_of w'.
Proof.
  intros [Hj _|jb sb Hj _ _ _ _
         |i jb sb sb' Hi _ _ Hj _
         |i jb rj sb m Hi Hj _ _ _ _ _ _ _ _] job st Hin; rewrite Hj.
  - eauto.
  - exists st. apply elem_of_app. by left.
  - by eapply restatus_persists.
  - destruct (restatus_persists _ i jb _ Bull.failed Hi job st Hin) as [st' Hin'].
    exists st'. apply elem_of_app. by left.
Qed.

Lemma indexed_step (ev : event) (w : World) :
  indexed w -> indexed (step ev w).
Proof.
  intros Hw k v Hk.
  pose proof (effect_persists _ _ (step_effect ev w)) as Hkeep.
  destruct (step_indexing ev w) as [Hsub|job st Hin Hpo].
  - destruct (Hw k v (Hsub k v Hk)) as (job & st & Hin & Hid & Ho).
    destruct (Hkeep job st Hin) as [st' Hin']. eauto 6.
  - rewrite Hpo in Hk. destruct (decide (id job = k)) as [<-|Hne].
    + rewrite lookup_insert_eq in Hk. injection Hk as <-. eauto 6.
    + rewrite lookup_insert_ne in Hk by done.
      destruct (Hw k v Hk) as (job' & st' & Hin' & Hid & Ho).
      destruct (Hkeep job' st' Hin') as [st'' Hin'']. eauto 6.
Qed.

(** X13. In a world reached from a new scheduler, every entry of the
    Order Index belongs to a stored job: the backend holds a job with that
    id whose envelope carries that order, and the order is one that
    [addJob] has handed out, from 0 to below the counter.  So the map
    never names an id that was not stored, and never an order that was
    not assigned. *)
Theorem order_index_names_stored_jobs (w : World) (k : string) (v : option Z) :
  reachable w ->
  processingOrder (this w) !! k = Some v ->
  exists job st o,
    (job, st) ∈ jobs_of w /\ id job = k /\ _order (data job) = v
    /\ v = Some o /\ 0 <= o < counter_of w.
Proof.
  intros Hreach Hk. pose proof (reachable_invariant w Hreach) as Hinv.
  destruct Hreach as (qn & evs & ->).
  assert (Hrun : forall evs w0, indexed w0 -> indexed (run evs w0)).
  { clear. induction evs as [|ev evs IH]; intros w0 H0; [done|].
    change (run (ev :: evs) w0) with (run evs (step ev w0)).
    apply IH. by apply indexed_step. }
  destruct (Hrun evs (new_world qn)) with (k := k) (v := v)
    as (job & st & Hin & Hid & Ho); [by intros ? ? ?|done|].
  pose proof Hin as [j Hj]%list_elem_of_lookup.
  destruct (inv_jobs _ Hinv j job st Hj) as (o & c & m & Hord & Hrange & _).
  exists job, st, o. rewrite <- Ho. done.
Qed.

Lemma order_index_names_stored_jobs_witness :
  exists job st o,
    (job, st) ∈ jobs_of (run four_attempts (new_world "demo"))
    /\ id job = "1" /\ _order (data job) = Some 0
    /\ Some 0 = Some o
    /\ 0 <= o < counter_of (run four_attempts (new_world "demo")).
Proof.
  apply (order_index_names_stored_jobs (run four_attempts (new_world "demo"))
           "1" (Some 0)).
  - by exists "demo", four_attempts.
  - vm_compute. reflexivity.
Defined.



(** ** More on the Stats Projector *)

Lemma getOrderedJobCounts_Return (w : World) res w' :
  getOrderedJobCounts w = (Return res, w') ->
  w' = w
  /\ res = {| jobCounts :=
                {| Bull.n_waiting := Bull.count Bull.waiting (redis w);
                   Bull.n_active := Bull.count Bull.active (redis w);
                   Bull.n_completed := Bull.count Bull.completed (redis w);
                   Bull.n_failed := Bull.count Bull.failed (redis w);
                   Bull.n_delayed := Bull.count Bull.delayed (redis w) |};
              orderedWaiting := sorted_waiting (redis w);
              orderedDelayed := sorted_delayed (redis w);
              totalOrder := currentOrder (this w);
              oc_maxRetries := maxRetries (this w);
              oc_retryDelay := retryDelay (this w) |}.
Proof.
  intros Heq.
  destruct (isInitialized (this w)) eqn:Hi.
  2: { rewrite (getOrderedJobCounts_not_initialized w Hi) in Heq. discriminate. }
  destruct (backend_cases w) as [(q & Hq & Hc)|Hrej].
  - revert Heq. unfold getOrderedJobCounts.
    unfold mbind at 1, M_bind at 1, get_this at 1. rewrite Hi. cbn [negb].
    unfold try_catch. unfold mbind, M_bind at 1.
    rewrite (with_queue_Some _ _ _ q Hq).
    unfold on_redis at 1, Bull.getJobCounts. rewrite Hc.
    unfold mbind, M_bind at 1.
    rewrite (with_queue_Some _ _ _ q Hq), (getJobs_connected _ _ Hc).
    unfold mbind, M_bind at 1.
    rewrite (with_queue_Some _ _ _ q Hq), (getJobs_connected _ _ Hc).
    intros [= <- <-]. done.
  - destruct (getOrderedJobCounts_unanswered w Hi Hrej) as (e & w1 & Hres).
    rewrite Hres in Heq. discriminate.
Qed.





Lemma getOrderedJobCounts_rejected (w : World) :
  isInitialized (this w) = true ->
  queue (this w) = None \/ Bull.connected (redis w) = false ->
  exists e,
    getOrderedJobCounts w
    = (Throw e, logged error "Failed to get ordered job counts:" (Some e) w).
Proof.
  intros Hi Hrej. unfold getOrderedJobCounts.
  unfold mbind at 1, M_bind at 1, get_this at 1. rewrite Hi. cbn [negb].
  unfold try_catch. unfold mbind, M_bind at 1.
  destruct (queue (this w)) as [q|] eqn:Hq.
  - destruct Hrej as [?|Hc]; [done|].
    rewrite (with_queue_Some _ _ _ q Hq).
    unfold on_redis at 1, Bull.getJobCounts. rewrite Hc.
    eexists. reflexivity.
  - rewrite (with_queue_None _ _ _ Hq). eexists. reflexivity.
Qed.

(** X16. [getOrderedJobCounts] is a read: in every world, whether it
    returns or throws, it leaves the scheduler, the backend and the clock
    as they were.  A call that returns writes nothing to the console
    either, and the three scalars of its result are the counter and the
    retry configuration that the scheduler has when it returns. *)
Theorem getOrderedJobCounts_is_a_read (w : World) :
  this (snd (getOrderedJobCounts w)) = this w
  /\ redis (snd (getOrderedJobCounts w)) = redis w
  /\ clock (snd (getOrderedJobCounts w)) = clock w
  /\ forall res w',
       getOrderedJobCounts w = (Return res, w') ->
       console w' = console w
       /\ totalOrder res = currentOrder (this w')
       /\ oc_maxRetries res = maxRetries (this w')
       /\ oc_retryDelay res = retryDelay (this w').
Proof.
  assert (Hframe : this (snd (getOrderedJobCounts w)) = this w
                   /\ redis (snd (getOrderedJobCounts w)) = redis w
                   /\ clock (snd (getOrderedJobCounts w)) = clock w).
  { destruct (isInitialized (this w)) eqn:Hi.
    2: { by rewrite (getOrderedJobCounts_not_initialized w Hi). }
    destruct (backend_cases w) as [(q & Hq & Hc)|Hrej].
    - by destruct (getOrderedJobCounts_answered w q Hi Hq Hc) as (? & ->).
    - by destruct (getOrderedJobCounts_rejected w Hi Hrej) as (? & ->). }
  destruct Hframe as (Hthis & Hredis & Hclock).
  split; [done|]. split; [done|]. split; [done|].
  intros res w' [-> ->]%getOrderedJobCounts_Return. done.
Qed.

Lemma status_eqb_true (a b : Bull.status) : Bull.status_eqb a b = true -> a = b.
Proof. by destruct a, b. Qed.

(** Stored jobs of one status whose keys differ pairwise are listed with
    pairwise different keys. *)
Lemma with_status_NoDup (key : Job -> Z) (st : Bull.status)
  (l : list (Job * Bull.status)) :
  (forall (a b : nat) ja jb,
     (a < b)%nat -> l !! a = Some (ja, st) -> l !! b = Some (jb, st) ->
     key ja <> key jb) ->
  NoDup (map key (map fst (filter (fun p => Bull.status_eqb (snd p) st = true) l))).
Proof.
  induction l as [|[j s] l IH]; intros Hl; [constructor|].
  assert (Htail : NoDup (map key (map fst
                    (filter (fun p => Bull.status_eqb (snd p) st = true) l)))).
  { apply IH. intros a b ja jb Hab Ha Hb. apply (Hl (S a) (S b)); [lia|done|done]. }
  rewrite filter_cons. case_decide as Hs; [|done].
  cbn in Hs. apply status_eqb_true in Hs as ->. cbn [map fst].
  apply NoDup_cons. split; [|done].
  intros (j' & Hk & ([j'' s''] & Hj' & Hin)%list_elem_of_fmap)%list_elem_of_fmap.
  cbn in Hj'. subst j'.
  apply list_elem_of_filter in Hin as [Hs' [b Hb]%list_elem_of_lookup].
  cbn in Hs'. apply status_eqb_true in Hs' as ->.
  by apply (Hl 0%nat (S b) j j''); [lia|done|done|].
Qed.

Lemma sorted_strictly {A} (key : A -> Z) (l : list A) :
  StronglySorted (ascending key) l ->
  NoDup (map key l) ->
  StronglySorted (fun a b => key a < key b) l.
Proof.
  induction 1 as [|x l Hl IH Hx]; intros Hnd; [constructor|].
  cbn in Hnd. apply NoDup_cons in Hnd as [Hnin Hnd].
  constructor; [by apply IH|].
  apply Forall_forall. intros y Hy.
  rewrite Forall_forall in Hx. pose proof (Hx y Hy) as Hle. unfold ascending in Hle.
  assert (key x <> key y); [|lia].
  intros Heq. apply Hnin. rewrite Heq. apply list_elem_of_fmap. eauto.
Qed.

(** In a reached world the stored jobs of one status other than [failed]
    carry pairwise different orders. *)
Lemma reachable_orders_differ (w : World) (st : Bull.status) :
  reachable w -> st <> Bull.failed ->
  forall (a b : nat) ja jb,
    (a < b)%nat ->
    jobs_of w !! a = Some (ja, st) -> jobs_of w !! b = Some (jb, st) ->
    _order (data ja) ||? 0 <> _order (data jb) ||? 0.
Proof.
  intros Hreach Hst a b ja jb Hab Ha Hb Heq.
  pose proof (reachable_invariant w Hreach) as Hinv.
  destruct (inv_jobs _ Hinv a ja st Ha) as (oa & ? & ? & Hoa & _).
  destruct (inv_jobs _ Hinv b jb st Hb) as (ob & ? & ? & Hob & _).
  rewrite Hoa, Hob, !or_default_zero in Heq. subst ob.
  destruct (inv_chain _ Hinv a b ja st jb st Hab Ha Hb) as [? _]; [congruence|done].
Qed.

(** X17. In a world reached from a new scheduler, every result of
    [getOrderedJobCounts] lists each lineage at most once in
    [orderedWaiting] and at most once in [orderedDelayed]: both lists are
    strictly ascending in [order]. *)
Theorem getOrderedJobCounts_strictly_ascending (w : World) res w' :
  reachable w ->
  getOrderedJobCounts w = (Return res, w') ->
  StronglySorted (fun a b => order a < order b) (orderedWaiting res)
  /\ StronglySorted (fun a b => order a < order b) (orderedDelayed res).
Proof.
  intros Hreach [_ ->]%getOrderedJobCounts_Return. cbn.
  unfold sorted_waiting, sorted_delayed.
  split; apply sorted_strictly;
    try apply (Array_sort_sorted order by_order by_order_key);
    rewrite (Array_sort_perm _ _), map_map; cbn.
  - apply (with_status_NoDup (fun j => _order (data j) ||? 0) Bull.waiting).
    by apply reachable_orders_differ.
  - apply (with_status_NoDup (fun j => _order (data j) ||? 0) Bull.delayed).
    by apply reachable_orders_differ.
Qed.

Lemma getOrderedJobCounts_strictly_ascending_witness :
  exists res,
    getOrderedJobCounts shuffled_world = (Return res, shuffled_world)
    /\ map order (orderedWaiting res) = [0; 1; 2]
    /\ StronglySorted (fun a b => order a < order b) (orderedWaiting res)
    /\ StronglySorted (fun a b => order a < order b) (orderedDelayed res).
Proof.
  eexists. split; [vm_compute; reflexivity|].
  split; [vm_compute; reflexivity|].
  apply (getOrderedJobCounts_strictly_ascending shuffled_world _ shuffled_world).
  - exists "demo",
      [Initialize; SetRetryConfig 3 5000;
       RegisterProcessor "bad" throwing; Start;
       AddJob "bad" ∅ no_options; AddJob "bad" ∅ no_options;
       AddJob "bad" ∅ no_options;
       Deliver 0; Deliver 1; Promote 3; Promote 4].
    reflexivity.
  - vm_compute. reflexivity.
Defined.

(** ** The retry decision *)

(** X18. The decision of [handleJobFailure] in full: a job is stored
    exactly when the count [_retryCount || 0] is below the budget
    [_maxRetries || this.maxRetries], the queue handle is set and the
    backend takes the submission.  A budget that is negative, or a count
    at or above the budget, never gives a retry. *)
Theorem handleJobFailure_retries_iff (job : Job) (e : exn) (w : World) :
  jobs_of (snd (handleJobFailure job e w)) <> jobs_of w
  <-> _retryCount (data job) ||? 0 < _maxRetries (data job) ||? maxRetries (this w)
      /\ is_Some (queue (this w))
      /\ Bull.connected (redis w) = true.
Proof.
  change (_maxRetries (data job) ||? maxRetries (this w)) with (budget job w).
  destruct (handleJobFailure_indexing job e w)
    as [[_ Hsame]|(retry & st & Hjobs & _)].
  - split; [done|]. intros (Hlt & [q Hq] & Hc).
    destruct (handleJobFailure_retry job e w q Hlt Hq Hc) as (? & ? & Heq & _).
    rewrite Heq in Hsame. unfold jobs_of in Hsame. cbn in Hsame.
    apply (f_equal length) in Hsame. rewrite length_app in Hsame. cbn in Hsame. lia.
  - split.
    + intros _.
      destruct (Z_lt_le_dec (_retryCount (data job) ||? 0) (budget job w))
        as [Hlt|Hge].
      * split; [done|]. destruct (queue (this w)) as [q|] eqn:Hq.
        -- split; [by eexists|]. destruct (Bull.connected (redis w)) eqn:Hc; [done|].
           destruct (handleJobFailure_rejected job e w q Hlt Hq Hc) as (? & Heq & _).
           rewrite Heq in Hjobs. unfold jobs_of in Hjobs. cbn in Hjobs.
           apply (f_equal length) in Hjobs. rewrite length_app in Hjobs.
           cbn in Hjobs. lia.
        -- destruct (handleJobFailure_no_queue job e w Hlt Hq) as (? & ? & Heq & _).
           rewrite Heq in Hjobs. unfold jobs_of in Hjobs. cbn in Hjobs.
           apply (f_equal length) in Hjobs. rewrite length_app in Hjobs.
           cbn in Hjobs. lia.
      * destruct (handleJobFailure_exhausted job e w Hge) as (? & Heq & _).
        rewrite Heq in Hjobs. unfold jobs_of in Hjobs. cbn in Hjobs.
        apply (f_equal length) in Hjobs. rewrite length_app in Hjobs.
        cbn in Hjobs. lia.
    + intros _ Heq. rewrite Hjobs in Heq.
      apply (f_equal length) in Heq. rewrite length_app in Heq. cbn in Heq. lia.
Qed.

(** X19. A failed job that carries no envelope, as one of another producer
    does, is handled with the defaults: its count is taken as 0 and its
    budget as the configured [maxRetries].  When that is positive and the
    backend takes the submission, the retry carries [_retryCount = 1],
    the configured budget, the order of the job if it has one, and the
    fields of [_originalData] alone: the fields of a job without
    [_originalData] are not carried over. *)
Theorem handleJobFailure_defaults (job : Job) (e : exn) (w : World) (q : Bull.Queue) :
  _retryCount (data job) = None ->
  _maxRetries (data job) = None ->
  0 < maxRetries (this w) ->
  queue (this w) = Some q ->
  Bull.connected (redis w) = true ->
  exists retry st,
    jobs_of (snd (handleJobFailure job e w)) = jobs_of w ++ [(retry, st)]
    /\ name retry = name job
    /\ _retryCount (data retry) = Some 1
    /\ _maxRetries (data retry) = Some (maxRetries (this w))
    /\ _order (data retry) = _order (data job)
    /\ _previousJobId (data retry) = Some (id job)
    /\ (_originalData (data job) = None ->
        fields (data retry) = ∅ /\ _originalData (data retry) = None).
Proof.
  intros Hk Hm Hpos Hq Hc.
  assert (Hb : budget job w = maxRetries (this w)).
  { unfold budget. by rewrite Hm. }
  destruct (handleJobFailure_retry job e w q) as (? & ? & -> & _); [|done|done|].
  { rewrite Hb, Hk. exact Hpos. }
  eexists _, _. split; [reflexivity|]. cbn. rewrite Hb, Hk.
  repeat split; try done.
  match goal with H : _originalData _ = None |- _ => by rewrite H end.
Qed.

Lemma handleJobFailure_defaults_witness :
  exists retry st,
    jobs_of (snd (handleJobFailure (foreign_job "a" (Some 1)) (Error "boom")
                    foreign_world))
    = jobs_of foreign_world ++ [(retry, st)]
    /\ name retry = name (foreign_job "a" (Some 1))
    /\ _retryCount (data retry) = Some 1
    /\ _maxRetries (data retry) = Some (maxRetries (this foreign_world))
    /\ _order (data retry) = _order (data (foreign_job "a" (Some 1)))
    /\ _previousJobId (data retry) = Some (id (foreign_job "a" (Some 1)))
    /\ (_originalData (data (foreign_job "a" (Some 1))) = None ->
        fields (data retry) = ∅ /\ _originalData (data retry) = None).
Proof.
  apply (handleJobFailure_defaults (foreign_job "a" (Some 1)) (Error "boom")
           foreign_world
           {| Bull.q_name := "demo"; Bull.removeOnComplete := 100;
              Bull.removeOnFail := 50; Bull.q_attempts := 1 |});
    reflexivity.
Defined.

(** ** Pausing, closing, and the lookups *)

Lemma deliver_paused (i : nat) (w : World) :
  Bull.paused (redis w) = true -> step (Deliver i) w = w.
Proof.
  intros Hp. cbn [step]. unfold ignore. rewrite deliver_idle; [done|].
  right. unfold ready. by rewrite Hp.
Qed.

(** X20. On an initialized scheduler whose backend answers, [pause]
    returns, keeps the scheduler and the stored jobs, and leaves a queue
    from which no delivery is made; [resume] after it gives back the
    backend as it was, ready to deliver. *)
Theorem pause_then_resume (w : World) (q : Bull.Queue) :
  isInitialized (this w) = true ->
  queue (this w) = Some q ->
  Bull.connected (redis w) = true ->
  Bull.paused (redis w) = false ->
  fst (pause w) = Return tt
  /\ this (step Pause w) = this w
  /\ jobs_of (step Pause w) = jobs_of w
  /\ (forall i, step (Deliver i) (step Pause w) = step Pause w)
  /\ fst (resume (step Pause w)) = Return tt
  /\ this (step Resume (step Pause w)) = this w
  /\ redis (step Resume (step Pause w)) = redis w.
Proof.
  intros Hi Hq Hc Hp.
  assert (Hpause : pause w
            = (Return tt,
               logged log "Ordered Queue ${this.queueName} paused" None
                 (set_redis {| Bull.jobs := Bull.jobs (redis w);
                               Bull.counter := Bull.counter (redis w);
                               Bull.connected := Bull.connected (redis w);
                               Bull.paused := true |} w))).
  { unfold pause. unfold_M. unfold Bull.set_paused.
    rewrite Hi. cbn. rewrite Hq. cbn. by rewrite Hc. }
  cbn [step]. unfold ignore. rewrite Hpause. cbn [fst snd].
  split; [done|]. split; [done|]. split; [done|].
  split; [intros i; by apply deliver_paused|].
  unfold resume. unfold_M. unfold Bull.set_paused. cbn.
  rewrite Hi. cbn. rewrite Hq. cbn. rewrite Hc. cbn.
  split; [done|]. split; [done|]. rewrite <- Hp, <- Hc. done.
Qed.

Lemma pause_then_resume_witness :
  fst (pause failing_world) = Return tt
  /\ this (step Pause failing_world) = this failing_world
  /\ jobs_of (step Pause failing_world) = jobs_of failing_world
  /\ (forall i, step (Deliver i) (step Pause failing_world)
                = step Pause failing_world)
  /\ fst (resume (step Pause failing_world)) = Return tt
  /\ this (step Resume (step Pause failing_world)) = this failing_world
  /\ redis (step Resume (step Pause failing_world)) = redis failing_world.
Proof.
  apply (pause_then_resume failing_world
           {| Bull.q_name := "demo"; Bull.removeOnComplete := 100;
              Bull.removeOnFail := 50; Bull.q_attempts := 1 |});
    reflexivity.
Defined.

Lemma addJob_passes_the_guard n d o (w : World) :
  isInitialized (this w) = true ->
  thrown (fst (addJob n d o w)) <> Some not_initialized
  /\ counter_of (snd (addJob n d o w)) = counter_of w + 1.
Proof.
  intros Hi. unfold counter_of, addJob. unfold_M. rewrite Hi. cbn.
  destruct (queue (this w)) as [q|]; cbn; [|done].
  unfold Bull.add. by destruct (Bull.connected (redis w)).
Qed.

(** X21. [close] returns in every world and changes of the scheduler only
    the worker: [isInitialized], the handles of the queue and of the
    delay scheduler, the Order Index, the counter, the configuration and
    the registry stay, and so does the clock.  Because [isInitialized]
    stays set, [addJob] on a closed scheduler still passes the guard: it
    does not throw the not-initialized error, and it uses up an order
    whatever the backend then answers. *)
Theorem close_keeps_the_scheduler (w : World) :
  fst (close w) = Return tt
  /\ (exists wk, this (step Close w) = set_worker wk (this w))
  /\ clock (step Close w) = clock w
  /\ (forall n d o,
        isInitialized (this w) = true ->
        thrown (fst (addJob n d o (step Close w))) <> Some not_initialized
        /\ counter_of (snd (addJob n d o (step Close w))) = counter_of w + 1).
Proof.
  assert (Hclose : exists wk r line,
             close w
             = (Return tt,
                {| this := set_worker wk (this w); redis := r;
                   clock := clock w; console := console w ++ [line] |})).
  { unfold close, QueueScheduler_close. unfold_M. cbn.
    destruct (worker (this w)) as [wk|] eqn:Hwk,
             (scheduler (this w)), (queue (this w)); cbn;
      lazymatch type of Hwk with
      | _ = Some ?k => exists (Some (Bull.stopped k))
      | _ => exists (worker (this w))
      end;
      eexists _, _; reflexivity. }
  destruct Hclose as (wk & r & line & Heq).
  cbn [step]. unfold ignore. rewrite Heq. cbn [fst snd].
  split; [done|]. split; [by eexists|]. split; [done|].
  intros n d o Hi.
  match goal with
  | |- context [addJob n d o ?w1] =>
      destruct (addJob_passes_the_guard n d o w1) as [Hg Hco]; [exact Hi|]
  end.
  split; [exact Hg|]. rewrite Hco. done.
Qed.

(** X22. [getJob] and [getJobs] are reads: in every world, whether they
    return or throw, they leave the world, the console included, as it
    was.  What they return comes from the backend: [getJob] a stored job
    with the id asked for, or nothing when no stored job has that id;
    [getJobs] stored jobs of the status asked for. *)
Theorem lookups_are_reads (w : World) :
  (forall jobId,
     snd (getJob jobId w) = w
     /\ (forall job, fst (getJob jobId w) = Return (Some job) ->
           id job = jobId /\ exists st, (job, st) ∈ jobs_of w)
     /\ (fst (getJob jobId w) = Return None ->
         forall job st, (job, st) ∈ jobs_of w -> id job <> jobId))
  /\ (forall st first last,
        snd (getJobs st first last w) = w
        /\ forall l, fst (getJobs st first last w) = Return l ->
             forall job, job ∈ l -> (job, st) ∈ jobs_of w).
Proof.
  split.
  - intros jobId. unfold getJob. unfold_M. unfold Bull.getJob.
    destruct (isInitialized (this w)); cbn; [|done].
    destruct (queue (this w)); cbn; [|done].
    destruct (Bull.connected (redis w)); cbn; [|done].
    split; [done|].
    destruct (find _ (Bull.jobs (redis w))) as [[j s]|] eqn:Hfind; cbn.
    + split; [|done]. intros job [= <-].
      apply find_some in Hfind as [Hin Hid]. cbn in Hid.
      apply String.eqb_eq in Hid. split; [done|].
      exists s. by apply list_elem_of_In.
    + split; [done|]. intros _ job st Hin Hid.
      apply list_elem_of_In in Hin.
      pose proof (find_none _ _ Hfind _ Hin) as Hno. cbn in Hno.
      apply String.eqb_neq in Hno. done.
  - intros st first last. unfold getJobs. unfold_M. unfold Bull.getJobsRange.
    destruct (isInitialized (this w)); cbn; [|done].
    destruct (queue (this w)); cbn; [|done].
    destruct (Bull.connected (redis w)); cbn; [|done].
    split; [done|]. intros l [= <-] job Hin.
    unfold Bull.range in Hin.
    apply elem_of_with_status.
    eapply elem_of_sublist; [exact Hin|].
    etrans; [apply sublist_take | apply sublist_drop].
Qed.

(** ** Lineages that have succeeded *)

(** X23. In a world reached from a new scheduler, a completed job is the
    last attempt of its lineage: every other stored job of its order is
    an earlier attempt that has failed, and on every later run the jobs of
    that order are these same jobs with these same statuses.  No retry is
    ever stored for a lineage that has succeeded. *)
Theorem completed_lineage_is_final (w : World) (i : nat) (job : Job) :
  reachable w ->
  jobs_of w !! i = Some (job, Bull.completed) ->
  forall evs (idx : nat) j st,
    jobs_of (run evs w) !! idx = Some (j, st) ->
    _order (data j) = _order (data job) ->
    jobs_of w !! idx = Some (j, st)
    /\ (idx = i \/ (idx < i)%nat /\ st = Bull.failed).
Proof.
  intros Hreach Hi evs idx j st Hidx Hsame.
  pose proof (reachable_invariant w Hreach) as [Hc Hwf Hch].
  destruct (Hwf i job _ Hi) as (o & k & m & Ho & Hoc & _).
  assert (Hplace : forall (a : nat) ja sa,
             jobs_of w !! a = Some (ja, sa) ->
             _order (data ja) = Some o ->
             a = i \/ (a < i)%nat /\ sa = Bull.failed).
  { intros a ja sa Ha Hoa.
    destruct (lt_eq_lt_dec a i) as [[Hlt| ->]|Hgt]; [|by left|].
    - right. split; [done|].
      destruct (Hch a i ja sa job Bull.completed Hlt Ha Hi) as [? _]; congruence.
    - destruct (Hch i a job Bull.completed ja sa Hgt Hi Ha) as [? _]; congruence. }
  assert (Hs : settled o (jobs_of w)).
  { intros a ja sa Ha Hoa.
    destruct (Hplace a ja sa Ha Hoa) as [->|[_ ->]]; [|by right].
    rewrite Hi in Ha. injection Ha as _ <-. by left. }
  destruct (settled_run o evs w Hs) as (_ & Hun); [lia|].
  rewrite Ho in Hsame.
  pose proof (Hun idx j st Hidx Hsame) as Hnow.
  split; [exact Hnow|]. by eapply Hplace.
Qed.

Lemma completed_lineage_is_final_witness :
  exists job,
    jobs_of mixed_world !! 0%nat = Some (job, Bull.completed)
    /\ forall evs (idx : nat) j st,
         jobs_of (run evs mixed_world) !! idx = Some (j, st) ->
         _order (data j) = _order (data job) ->
         jobs_of mixed_world !! idx = Some (j, st)
         /\ (idx = 0%nat \/ (idx < 0)%nat /\ st = Bull.failed).
Proof.
  eexists. split; [vm_compute; reflexivity|].
  apply (completed_lineage_is_final mixed_world 0).
  - exists "demo",
      [Initialize; SetRetryConfig 0 0;
       RegisterProcessor "good" returning; RegisterProcessor "bad" throwing;
       Start;
       AddJob "good" ∅ no_options; AddJob "bad" ∅ no_options;
       AddJob "good" ∅ no_options;
       Deliver 0; Deliver 1].
    reflexivity.
  - vm_compute. reflexivity.
Defined.
